(** * autopush/db.py: the storage layer over DynamoDB, and its conditional writes

    A shallow embedding of [autopush/db.py].  The module talks to DynamoDB
    through boto's [dynamodb2] package; the part of DynamoDB and of boto that
    the module relies on is modelled first (attribute values, condition and
    update expressions, the requests on one table), then the helpers of the
    module ([get_month], [make_rotating_tablename], [track_provisioned]) and
    its three classes [Storage], [Message] and [Router]. *)

From Stdlib Require Import ZArith String Ascii.
From stdpp Require Import base option list strings gmap sorting pretty.

(** ** Values

    Python values as the module hands them to boto, identified with the
    DynamoDB attribute values boto's [Dynamizer] encodes them to: a string
    [{'S': s}], a number [{'N': n}], a set of strings [{'SS': ..}], a dict
    [{'M': ..}] and [None], encoded as [{'NULL': True}]. *)

Inductive Value : Type :=
  | VStr (s : string)
  | VNum (n : Z)
  | VSet (ss : gset string)
  | VMap (m : list (string * string))
  | VNone.

Global Instance Value_eq_dec : EqDecision Value.
Proof. solve_decision. Defined.

(** A Python dict with string keys, a boto [Item]'s [_data], and a stored
    DynamoDB item are all finite maps from attribute names to values. *)
Abbreviation Item := (gmap string Value).

(** Python truthiness: what [if v:] and [v or w] test. *)
Definition truthy (v : Value) : bool :=
  match v with
  | VStr s => negb (String.eqb s "")
  | VNum n => negb (n =? 0)%Z
  | VSet ss => negb (bool_decide (ss = ∅))
  | VMap m => match m with [] => false | _ :: _ => true end
  | VNone => false
  end.

(** [a or b] *)
Definition py_or (a b : Value) : Value := if truthy a then a else b.

(** [d.get(k, None)], which is also boto's [Item.__getitem__]. *)
Definition item_get (it : Item) (k : string) : Value := default VNone (it !! k).

(** ** DynamoDB expressions *)

Inductive Operand : Type :=
  | OAttr (a : string)          (* an attribute of the stored item *)
  | OVal (p : string)           (* a placeholder such as ":ver" *)
  | OLit (v : Value).           (* a value given in place (legacy [expected]) *)

Inductive Cond : Type :=
  | attribute_exists (a : string)
  | attribute_not_exists (a : string)
  | CEq (l r : Operand)
  | CLt (l r : Operand)
  | CAnd (c d : Cond)
  | COr (c d : Cond).

(** DynamoDB orders numbers numerically and strings by their bytes; values of
    different types are never in order. *)
Definition value_lt (a b : Value) : bool :=
  match a, b with
  | VNum x, VNum y => bool_decide (x < y)%Z
  | VStr x, VStr y => String.ltb x y
  | _, _ => false
  end.

(** An operand evaluates to [None] when it names a placeholder that
    [expression_attribute_values] does not define (DynamoDB then rejects the
    request), and to [Some None] when it names an attribute the item lacks. *)
Definition eval_operand (vals : Item) (it : Item) (o : Operand) : option (option Value) :=
  match o with
  | OAttr a => Some (it !! a)
  | OVal p => Some <$> vals !! p
  | OLit v => Some (Some v)
  end.

Definition compare_with (f : Value → Value → bool) (x y : option Value) : bool :=
  match x, y with
  | Some a, Some b => f a b
  | _, _ => false
  end.

(** [eval_cond vals it c]: [None] when the expression is rejected, otherwise
    whether the stored item [it] (the empty item when nothing is stored under
    the key) satisfies [c].  A comparison with a missing attribute is false. *)
Fixpoint eval_cond (vals : Item) (it : Item) (c : Cond) : option bool :=
  match c with
  | attribute_exists a => Some (bool_decide (is_Some (it !! a)))
  | attribute_not_exists a => Some (bool_decide (it !! a = None))
  | CEq l r =>
      x ← eval_operand vals it l; y ← eval_operand vals it r;
      Some (compare_with (λ a b, bool_decide (a = b)) x y)
  | CLt l r =>
      x ← eval_operand vals it l; y ← eval_operand vals it r;
      Some (compare_with value_lt x y)
  | CAnd c d => x ← eval_cond vals it c; y ← eval_cond vals it d; Some (x && y)
  | COr c d => x ← eval_cond vals it c; y ← eval_cond vals it d; Some (x || y)
  end.

(** A request carries a conjunction of conditions: none for an unconditional
    request, one for a [condition_expression], one per attribute for boto's
    [expected]. *)
Fixpoint eval_guard (vals : Item) (it : Item) (g : list Cond) : option bool :=
  match g with
  | [] => Some true
  | c :: g' => x ← eval_cond vals it c; y ← eval_guard vals it g'; Some (x && y)
  end.

Inductive UpdateAction : Type :=
  | USet (a p : string)       (* SET a = p *)
  | URemove (a : string)      (* REMOVE a *)
  | UAdd (a p : string)       (* ADD a p, on sets *)
  | UDelete (a p : string).   (* DELETE a p, on sets *)

Definition updated_attr (u : UpdateAction) : string :=
  match u with USet a _ | URemove a | UAdd a _ | UDelete a _ => a end.

(** One action of an update expression; [None] when DynamoDB rejects it. *)
Definition apply_action (vals : Item) (it : Item) (u : UpdateAction) : option Item :=
  match u with
  | USet a p => v ← vals !! p; Some (<[a := v]> it)
  | URemove a => Some (delete a it)
  | UAdd a p =>
      v ← vals !! p;
      match v, it !! a with
      | VSet new, None => Some (<[a := VSet new]> it)
      | VSet new, Some (VSet old) => Some (<[a := VSet (old ∪ new)]> it)
      | _, _ => None
      end
  | UDelete a p =>
      v ← vals !! p;
      match v, it !! a with
      | VSet _, None => Some it
      | VSet gone, Some (VSet old) =>
          (* DynamoDB keeps no empty set: the attribute goes with its last member *)
          if decide (old ∖ gone = ∅) then Some (delete a it)
          else Some (<[a := VSet (old ∖ gone)]> it)
      | _, _ => None
      end
  end.

Fixpoint apply_update (vals : Item) (it : Item) (us : list UpdateAction) : option Item :=
  match us with
  | [] => Some it
  | u :: us' => it' ← apply_action vals it u; apply_update vals it' us'
  end.

Inductive ReturnValues := RV_NONE | ALL_OLD | UPDATED_OLD.

Inductive RangeCond : Type :=
  | RGt (s : string)            (* range__gt *)
  | RGte (s : string)           (* range__gte *)
  | RBeginsWith (s : string).   (* range__beginswith *)

Definition range_matches (rc : RangeCond) (r : string) : bool :=
  match rc with
  | RGt s => String.ltb s r
  | RGte s => String.leb s r
  | RBeginsWith s => String.prefix s r
  end.

(** The requests a table receives. A key is the list of the values of the
    table's key fields, in schema order. *)
Inductive Request : Type :=
  | GetItem (key : list Value)
  | PutItem (item : Item) (guard : list Cond) (vals : Item)
  | UpdateItem (key : list Value) (upd : list UpdateAction) (guard : list Cond)
               (vals : Item) (rv : ReturnValues)
  | DeleteItem (key : list Value) (guard : list Cond)
  | Query (hash : string) (rc : RangeCond) (limit : option nat)
          (attributes : option (list string))
  | BatchWriteItem (deletes : list (list Value)).

(** ** Exceptions and the state of the world *)

Inductive Exn : Type :=
  | ProvisionedThroughputExceededException
  | ConditionalCheckFailedException
  | ValidationException
  | ItemNotFound
  | KeyError (k : string).

Global Instance Exn_eq_dec : EqDecision Exn.
Proof. solve_decision. Defined.

(** boto derives the first three from [JSONResponseError]; [ItemNotFound] is a
    [DynamoDBError], not a response error. *)
Definition is_JSONResponseError (e : Exn) : bool :=
  match e with
  | ProvisionedThroughputExceededException
  | ConditionalCheckFailedException
  | ValidationException => true
  | _ => false
  end.

Inductive Outcome (A : Type) : Type :=
  | Return (a : A)
  | Raise (e : Exn).
Arguments Return {A} a.
Arguments Raise {A} e.

(** What one of the three classes sees: the items of [self.table], the
    counters [self.metrics.increment] was called with (oldest first), for each
    coming request whether DynamoDB will answer it with a throughput-exceeded
    error, the requests sent so far with that answer, and the Python objects
    (dicts and [Item]s) that callers and the module share by reference. *)
Record World : Type := mkWorld {
  table : gmap (list string) Item;
  metrics : list string;
  faults : list bool;
  sent : list (Request * bool);
  heap : gmap nat Item
}.

Definition set_table (f : gmap (list string) Item → gmap (list string) Item) (w : World) : World :=
  mkWorld (f (table w)) (metrics w) (faults w) (sent w) (heap w).
Definition set_heap (f : gmap nat Item → gmap nat Item) (w : World) : World :=
  mkWorld (table w) (metrics w) (faults w) (sent w) (f (heap w)).

(** Computations that read and change the world and may raise. *)
Definition M (A : Type) : Type := World → Outcome A * World.

Definition ret {A} (a : A) : M A := λ w, (Return a, w).
Definition raise {A} (e : Exn) : M A := λ w, (Raise e, w).
Definition bind {A B} (m : M A) (k : A → M B) : M B := λ w,
  match m w with
  | (Return a, w') => k a w'
  | (Raise e, w') => (Raise e, w')
  end.
(** [try: m except <handles>: h] *)
Definition try_except {A} (m : M A) (handles : Exn → bool) (h : Exn → M A) : M A := λ w,
  match m w with
  | (Return a, w') => (Return a, w')
  | (Raise e, w') => if handles e then h e w' else (Raise e, w')
  end.

Declare Scope py_scope.
Delimit Scope py_scope with py.
Notation "x <- m ;; k" := (bind m (λ x, k))
  (at level 100, m at next level, right associativity) : py_scope.
Notation "m ;; k" := (bind m (λ _, k))
  (at level 100, right associativity) : py_scope.
Local Open Scope py_scope.

Definition gets {A} (f : World → A) : M A := λ w, (Return (f w), w).
Definition modify (f : World → World) : M unit := λ w, (Return tt, f w).

Definition exn_is (e : Exn) : Exn → bool := λ e', bool_decide (e' = e).

(** [self.metrics.increment(name)] *)
Definition increment (name : string) : M unit :=
  modify (λ w, mkWorld (table w) (metrics w ++ [name]) (faults w) (sent w) (heap w)).

(** Sending a request: DynamoDB either throttles it or goes on to serve it. *)
Definition request (r : Request) : M unit := λ w,
  match faults w with
  | true :: fs =>
      (Raise ProvisionedThroughputExceededException,
       mkWorld (table w) (metrics w) fs (sent w ++ [(r, true)]) (heap w))
  | _ =>
      (Return tt,
       mkWorld (table w) (metrics w) (tail (faults w)) (sent w ++ [(r, false)]) (heap w))
  end.

(** ** The table, as boto presents it

    [schema] lists the key fields of the table ([HashKey], then [RangeKey]);
    their values are strings (boto's default key type), and DynamoDB rejects a
    key that has another value.  The keys of the stored items are the lists of
    these strings, in schema order. *)

Definition as_string (v : Value) : option string :=
  match v with VStr s => Some s | _ => None end.

(** The key of an item: the values of its key fields, when all are there. *)
Definition item_key (schema : list string) (it : Item) : option (list string) :=
  mapM (λ a, it !! a ≫= as_string) schema.

(** [table._encode_keys(kwargs)] for the key fields. *)
Definition key_attrs (schema : list string) (key : list string) : Item :=
  list_to_map (zip schema (VStr <$> key)).

(** boto's [Item.get_raw_keys()]: the key fields of the table and the item's
    values for them, and nothing else ([get_keys] reads [self[key]] for each
    key field of the table). *)
Definition get_raw_keys (schema : list string) (it : Item) : Item :=
  list_to_map ((λ a, (a, item_get it a)) <$> schema).

Definition stored (key : list string) : M (option Item) :=
  gets (λ w, table w !! key).

Definition with_key {A} (key : list Value) (k : list string → M A) : M A :=
  match mapM as_string key with
  | None => raise ValidationException
  | Some key' => k key'
  end.

(** Checks the guard of a write against what is stored under the key. *)
Definition check_guard (guard : list Cond) (vals : Item) (old : option Item) : M unit :=
  match eval_guard vals (default ∅ old) guard with
  | None => raise ValidationException
  | Some false => raise ConditionalCheckFailedException
  | Some true => ret tt
  end.

(** [conn.put_item(table_name, item=.., condition_expression=..,
    expression_attribute_values=..)]: the new item replaces whatever is stored
    under its key, all attributes included. *)
Definition conn_put_item (schema : list string) (item : Item) (guard : list Cond)
    (vals : Item) : M unit :=
  request (PutItem item guard vals) ;;
  match item_key schema item with
  | None => raise ValidationException
  | Some key =>
      old <- stored key ;;
      check_guard guard vals old ;;
      modify (set_table (<[key := item]>))
  end.

(** What [return_values] selects of the item as it was before an update. *)
Definition returned (rv : ReturnValues) (upd : list UpdateAction) (old : option Item) : option Item :=
  match rv with
  | RV_NONE => None
  | ALL_OLD => old
  | UPDATED_OLD =>
      it ← old;
      let touched := filter (λ kv, kv.1 ∈ (updated_attr <$> upd)) it in
      if decide (touched = ∅) then None else Some touched
  end.

(** [conn.update_item(table_name, key, update_expression=..,
    condition_expression=.., expression_attribute_values=..,
    return_values=..)]. It creates the item when nothing is stored under the
    key. The result is the [Attributes] entry of the response, when present. *)
Definition conn_update_item (schema : list string) (key : list Value)
    (upd : list UpdateAction) (guard : list Cond) (vals : Item)
    (rv : ReturnValues) : M (option Item) :=
  request (UpdateItem key upd guard vals rv) ;;
  with_key key (λ key,
    old <- stored key ;;
    check_guard guard vals old ;;
    match apply_update vals (default (key_attrs schema key) old) upd with
    | None => raise ValidationException
    | Some new =>
        modify (set_table (<[key := new]>)) ;;
        ret (returned rv upd old)
    end).

(** boto's [Table.delete_item(expected=.., uaid=.., ..)]: it answers [True]
    when the item is gone and [False] when the expectation failed, catching the
    failed condition itself.  [Router.drop_user] returns this boolean. *)
Definition table_delete_item (key : list Value) (guard : list Cond) : M bool :=
  request (DeleteItem key guard) ;;
  with_key key (λ key,
    old <- stored key ;;
    try_except
      (check_guard guard ∅ old ;;
       modify (set_table (delete key)) ;;
       ret true)
      (exn_is ConditionalCheckFailedException) (λ _, ret false)).

(** boto's [Table.get_item(consistent=True, uaid=.., ..)] *)
Definition table_get_item (key : list Value) : M Item :=
  request (GetItem key) ;;
  with_key key (λ key,
    old <- stored key ;;
    match old with
    | None => raise ItemNotFound
    | Some it => ret it
    end).

(** boto's [Item._is_storable]: [None], the empty string and the empty set are
    not sent to DynamoDB; 0 is. *)
Definition is_storable (v : Value) : bool :=
  match v with
  | VNum _ => true
  | _ => truthy v
  end.

(** boto's [Table.put_item(data=..)] with its default [overwrite=False]: the
    storable entries are saved, expecting each field of [data] not to exist
    yet. *)
Definition table_put_item (schema : list string) (data : Item) : M unit :=
  let item := filter (λ kv, is_storable kv.2 = true) data in
  let expects := attribute_not_exists <$> (map_to_list data).*1 in
  conn_put_item schema item expects ∅.

Definition range_of (key : list string) : string :=
  match key with
  | [_; r] => r
  | _ => ""
  end.

(** The items a query finds: those of the hash key whose range key meets the
    condition, by ascending range key, at most [limit], and of each only the
    attributes asked for. *)
Definition query_result (t : gmap (list string) Item) (hash : string) (rc : RangeCond)
    (limit : option nat) (attributes : option (list string)) : list Item :=
  let hits := List.filter
    (λ kv : list string * Item,
       match kv.1 with
       | [h; r] => String.eqb h hash && range_matches rc r
       | _ => false
       end) (map_to_list t) in
  let ordered := merge_sort (λ a b : list string * Item,
                               Is_true (String.leb (range_of a.1) (range_of b.1))) hits in
  let limited := match limit with
                 | Some n => take n ordered
                 | None => ordered
                 end in
  (λ kv : list string * Item,
     match attributes with
     | Some attrs => filter (λ av, av.1 ∈ attrs) kv.2
     | None => kv.2
     end) <$> limited.

(** boto's [Table.query_2(consistent=True, hash__eq=.., range__<op>=..)],
    read to its end. *)
Definition table_query_2 (hash : string) (rc : RangeCond) (limit : option nat)
    (attributes : option (list string)) : M (list Item) :=
  request (Query hash rc limit attributes) ;;
  gets (λ w, query_result (table w) hash rc limit attributes).

(** [with table.batch_write() as batch: batch.delete_item(uaid=.., ..)]: the
    deletes queued in the block are sent when it is left, as one batch write,
    and nothing is sent when none was queued. *)
Definition batch_write (deletes : list (list Value)) : M unit :=
  match deletes with
  | [] => ret tt
  | _ :: _ =>
      request (BatchWriteItem deletes) ;;
      match mapM (mapM as_string) deletes with
      | None => raise ValidationException
      | Some keys => modify (set_table (λ t, foldr delete t keys))
      end
  end.

(** ** Python objects shared with the caller *)

Definition alloc (it : Item) : M nat := λ w,
  let r := fresh (dom (heap w)) in
  (Return r, set_heap (<[r := it]>) w).

Definition deref (r : nat) : M Item :=
  gets (λ w, default ∅ (heap w !! r)).

Definition assign (r : nat) (it : Item) : M unit :=
  modify (set_heap (<[r := it]>)).

(** [d.pop(k)] on a dict *)
Definition dict_pop (r : nat) (k : string) : M Value :=
  d <- deref r ;;
  match d !! k with
  | None => raise (KeyError k)
  | Some v => assign r (delete k d) ;; ret v
  end.

(** [del item[k]] on a boto [Item], which ignores a missing key *)
Definition item_del (r : nat) (k : string) : M unit :=
  d <- deref r ;;
  match d !! k with
  | None => ret tt
  | Some _ => assign r (delete k d)
  end.

(** ** Calendar dates: [datetime.date] and [datetime.timedelta(days=..)] *)

Module Calendar.
Local Open Scope Z_scope.

Record date : Type := Date { year : Z; month : Z; day : Z }.

Definition MINYEAR : Z := 1.
Definition MAXYEAR : Z := 9999.

Definition is_leap (y : Z) : bool :=
  (y mod 4 =? 0) && (negb (y mod 100 =? 0) || (y mod 400 =? 0)).

Definition days_in_month (y m : Z) : Z :=
  if m =? 2 then (if is_leap y then 29 else 28)
  else if (m =? 4) || (m =? 6) || (m =? 9) || (m =? 11) then 30
  else 31.

(** The dates [datetime.date] can hold. *)
Definition valid_date (d : date) : Prop :=
  MINYEAR ≤ year d ≤ MAXYEAR ∧ 1 ≤ month d ≤ 12 ∧
  1 ≤ day d ≤ days_in_month (year d) (month d).

Definition next_day (d : date) : date :=
  if day d <? days_in_month (year d) (month d) then Date (year d) (month d) (day d + 1)
  else if month d <? 12 then Date (year d) (month d + 1) 1
  else Date (year d + 1) 1 1.

Definition prev_day (d : date) : date :=
  if 1 <? day d then Date (year d) (month d) (day d - 1)
  else if 1 <? month d then
    Date (year d) (month d - 1) (days_in_month (year d) (month d - 1))
  else Date (year d - 1) 12 31.

Definition shift_days (n : Z) (d : date) : date :=
  if 0 <=? n then Nat.iter (Z.to_nat n) next_day d
  else Nat.iter (Z.to_nat (- n)) prev_day d.

(** [d + datetime.timedelta(days=n)]; [None] is Python's [OverflowError] for a
    result outside [date.min .. date.max]. *)
Definition date_add (d : date) (n : Z) : option date :=
  let d' := shift_days n d in
  if (MINYEAR <=? year d') && (year d' <=? MAXYEAR) then Some d' else None.

(** How a loop ends: with a value, with Python's [OverflowError], or here, out
    of fuel. *)
Inductive Run (A : Type) : Type :=
  | Done (a : A)
  | Overflow
  | OutOfFuel.
Arguments Done {A} a.
Arguments Overflow {A}.
Arguments OutOfFuel {A}.

(** [while new.month == last.month: new -= / += timedelta(days=14)] *)
Fixpoint while_same_month (fuel : nat) (delta : Z) (last_month : Z) (new : date) : Run date :=
  if month new =? last_month then
    match fuel with
    | O => OutOfFuel
    | S fuel' =>
        match date_add new (if delta <? 0 then -14 else 14) with
        | None => Overflow
        | Some new' => while_same_month fuel' delta last_month new'
        end
    end
  else Done new.

(** [for _ in range(abs(delta)): <while>; last = new] *)
Fixpoint for_range (fuel : nat) (n : nat) (delta : Z) (new last : date) : Run date :=
  match n with
  | O => Done new
  | S n' =>
      match while_same_month fuel delta (month last) new with
      | Done new' => for_range fuel n' delta new' new'
      | Overflow => Overflow
      | OutOfFuel => OutOfFuel
      end
  end.

(** [get_month(delta)], with [today] for [datetime.date.today()]. *)
Definition get_month (fuel : nat) (today : date) (delta : Z) : Run date :=
  for_range fuel (Z.abs_nat delta) delta today today.

(** ["{}_{}_{}".format(prefix, date.year, date.month)] *)
Definition tablename (prefix : string) (y m : Z) : string :=
  prefix +:+ "_" +:+ pretty y +:+ "_" +:+ pretty m.

Definition make_rotating_tablename (fuel : nat) (today : date) (prefix : string)
    (delta : Z) : Run string :=
  match get_month fuel today delta with
  | Done d => Done (tablename prefix (year d) (month d))
  | Overflow => Overflow
  | OutOfFuel => OutOfFuel
  end.

(** The calendar month after and before a month of a year. *)
Definition month_after (y m : Z) : Z * Z := if m =? 12 then (y + 1, 1) else (y, m + 1).
Definition month_before (y m : Z) : Z * Z := if m =? 1 then (y - 1, 12) else (y, m - 1).

End Calendar.

(** ** The module *)

(** [@track_provisioned], with [func.__name__] handed over. *)
Definition track_provisioned {A} (func_name : string) (func : M A) : M A :=
  try_except func (exn_is ProvisionedThroughputExceededException)
    (λ e, increment ("error.provisioned." +:+ func_name) ;; raise e).

(** [{":%s" % k: v for k, v in d.items()}] *)
Definition placeholders (d : Item) : Item := kmap (String ":"%char) d.

(** ["%s:%s" % (channel_id, message_id)] *)
Definition chidmessageid (channel_id message_id : string) : string :=
  channel_id +:+ ":" +:+ message_id.

Module Storage.

(** [create_storage_table]: [HashKey("uaid"), RangeKey("chid")] *)
Definition storage_schema : list string := ["uaid"; "chid"].

Definition fetch_notifications (uaid : string) : M (list Item) :=
  track_provisioned "fetch_notifications"
    (table_query_2 uaid (RGt " ") None None).

Definition save_notification (uaid chid : string) (version : Z) : M bool :=
  track_provisioned "save_notification"
    (try_except
       (conn_put_item storage_schema
          {[ "uaid" := VStr uaid; "chid" := VStr chid; "version" := VNum version ]}
          [COr (attribute_not_exists "version") (CLt (OAttr "version") (OVal ":ver"))]
          {[ ":ver" := VNum version ]} ;;
        ret true)
       (exn_is ConditionalCheckFailedException) (λ _, ret false)).

(** [version=None] by default. *)
Definition delete_notification (uaid chid : string) (version : Value) : M bool :=
  try_except
    ((if truthy version
      then table_delete_item [VStr uaid; VStr chid] [CEq (OAttr "version") (OLit version)]
      else table_delete_item [VStr uaid; VStr chid] []) ;;
     ret true)
    (exn_is ProvisionedThroughputExceededException)
    (λ _, increment "error.provisioned.delete_notification" ;; ret false).

End Storage.

Module Message.

(** [create_message_table]: [HashKey("uaid"), RangeKey("chidmessageid")] *)
Definition message_schema : list string := ["uaid"; "chidmessageid"].

(** The key of the record that holds a user's set of channels. *)
Definition registry_key (uaid : string) : list Value := [VStr uaid; VStr " "].

Definition register_channel (uaid channel_id : string) : M bool :=
  track_provisioned "register_channel"
    (conn_update_item message_schema (registry_key uaid)
       [UAdd "chids" ":channel_id"] []
       {[ ":channel_id" := VSet {[ channel_id ]} ]} RV_NONE ;;
     ret true).

(** [channel_id in self.table._dynamizer.decode(chids)]; a [TypeError] or
    [AttributeError] there is passed over and the answer is [False]. *)
Definition channel_in (channel_id : string) (chids : Value) : bool :=
  match chids with
  | VSet ss => bool_decide (channel_id ∈ ss)
  | VMap m => bool_decide (channel_id ∈ m.*1)
  | VStr s => bool_decide (is_Some (String.index 0 channel_id s))
  | VNum _ | VNone => false
  end.

Definition unregister_channel (uaid channel_id : string) : M bool :=
  track_provisioned "unregister_channel"
    (result <- conn_update_item message_schema (registry_key uaid)
       [UDelete "chids" ":channel_id"] []
       {[ ":channel_id" := VSet {[ channel_id ]} ]} UPDATED_OLD ;;
     match default ∅ result !! "chids" with
     | Some chids => ret (channel_in channel_id chids)
     | None => ret false
     end).

Definition all_channels (uaid : string) : M (bool * Value) :=
  track_provisioned "all_channels"
    (try_except
       (result <- table_get_item (registry_key uaid) ;;
        ret (true, py_or (item_get result "chids") (VSet ∅)))
       (exn_is ItemNotFound) (λ _, ret (false, VSet ∅))).

Definition save_channels (uaid : string) (channels : Value) : M unit :=
  track_provisioned "save_channels"
    (table_put_item message_schema
       {[ "uaid" := VStr uaid; "chidmessageid" := VStr " "; "chids" := channels ]}).

(** [data=None, headers=None, timestamp=None] by default; [now] stands for
    [int(time.time())] and [uuid4_hex] for [uuid.uuid4().hex]. *)
Definition store_message (uaid channel_id message_id : string) (ttl : Z)
    (data headers timestamp : Value) (now : Z) (uuid4_hex : string) : M bool :=
  track_provisioned "store_message"
    (let item : Item :=
       {[ "uaid" := VStr uaid;
          "chidmessageid" := VStr (chidmessageid channel_id message_id);
          "data" := data;
          "headers" := headers;
          "ttl" := VNum ttl;
          "timestamp" := py_or timestamp (VNum now);
          "updateid" := VStr uuid4_hex ]} in
     let item := if truthy data
                 then <["data" := data]> (<["headers" := headers]> item)
                 else item in
     table_put_item message_schema item ;;
     ret true).

Definition update_message (uaid channel_id message_id : string) (ttl : Z)
    (data headers timestamp : Value) (now : Z) (uuid4_hex : string) : M bool :=
  track_provisioned "update_message"
    (let item : Item :=
       {[ "ttl" := VNum ttl;
          "timestamp" := py_or timestamp (VNum now);
          "updateid" := VStr uuid4_hex ]} in
     let item := if truthy data
                 then <["data" := data]> (<["headers" := headers]> item)
                 else item in
     returned <-
       try_except
         (let db_key := [VStr uaid; VStr (chidmessageid channel_id message_id)] in
          let expr := [USet "ttl" ":ttl"; USet "timestamp" ":timestamp";
                       USet "updateid" ":updateid"] in
          let expr := if truthy data
                      then expr ++ [USet "data" ":data"; USet "headers" ":headers"]
                      else expr ++ [URemove "data"; URemove "headers"] in
          conn_update_item message_schema db_key expr [attribute_exists "updateid"]
            (placeholders item) RV_NONE ;;
          ret None)
         (exn_is ConditionalCheckFailedException) (λ _, ret (Some false)) ;;
     ret (default true returned)).

(** [updateid=None] by default. *)
Definition delete_message (uaid channel_id message_id : string) (updateid : Value) : M bool :=
  track_provisioned "delete_message"
    (let key := [VStr uaid; VStr (chidmessageid channel_id message_id)] in
     returned <-
       (if truthy updateid then
          try_except
            (table_delete_item key [CEq (OAttr "updateid") (OLit updateid)] ;;
             ret None)
            (exn_is ConditionalCheckFailedException) (λ _, ret (Some false))
        else
          table_delete_item key [] ;; ret None) ;;
     ret (default true returned)).

(** The keys are strings or [None]; [if chidmessageid:] lets neither [None]
    nor the empty string through.  The method carries no decorator. *)
Definition delete_messages (uaid : string) (chidmessageids : list (option string)) : M unit :=
  batch_write
    (omap (λ k, match k with
                | Some s => if String.eqb s "" then None else Some [VStr uaid; VStr s]
                | None => None
                end) chidmessageids).

Definition delete_messages_for_channel (uaid channel_id : string) : M bool :=
  track_provisioned "delete_messages_for_channel"
    (results <- table_query_2 uaid (RBeginsWith (channel_id +:+ ":")) None
                  (Some ["chidmessageid"]) ;;
     let chidmessageids := (λ x : Item, as_string (item_get x "chidmessageid")) <$> results in
     (match chidmessageids with
      | [] => ret tt
      | _ :: _ => delete_messages uaid chidmessageids
      end) ;;
     ret (bool_decide (0 < length chidmessageids))).

Definition delete_user (uaid : string) : M unit :=
  track_provisioned "delete_user"
    (results <- table_query_2 uaid (RGte " ") None (Some ["chidmessageid"]) ;;
     let chidmessageids := (λ x : Item, as_string (item_get x "chidmessageid")) <$> results in
     match chidmessageids with
     | [] => ret tt
     | _ :: _ => delete_messages uaid chidmessageids
     end).

(** [limit=10] by default. *)
Definition fetch_messages (uaid : string) (limit : nat) : M (list Item) :=
  track_provisioned "fetch_messages"
    (table_query_2 uaid (RGt " ") (Some limit) None).

End Message.

Module Router.

(** [create_router_table]: [HashKey("uaid")] *)
Definition router_schema : list string := ["uaid"].

(** The [Item] read is a new object; the result refers to it. *)
Definition get_uaid (uaid : string) : M nat :=
  try_except
    (item <- table_get_item [VStr uaid] ;; alloc item)
    is_JSONResponseError
    (λ e, if exn_is ProvisionedThroughputExceededException e
          then increment "error.provisioned.get_uaid" ;; raise e
          else raise ItemNotFound).

(** The condition of [register_user]. *)
Definition register_cond : Cond :=
  CAnd (COr (attribute_not_exists "router_type")
            (CEq (OAttr "router_type") (OVal ":router_type")))
       (COr (attribute_not_exists "node_id")
            (CLt (OAttr "connected_at") (OVal ":connected_at"))).

(** [data] refers to the caller's dict.  The second component of the result
    is the decoded [Attributes] of the response, or the response itself, which
    has no entries, when it carries none. *)
Definition register_user (data : nat) : M (bool * Item) :=
  track_provisioned "register_user"
    (uaid <- dict_pop data "uaid" ;;
     d <- deref data ;;
     let db_key := [uaid] in
     let expr := (λ x, USet x (":" +:+ x)) <$> (map_to_list d).*1 in
     let expr_values := placeholders d in
     try_except
       (result <- conn_update_item router_schema db_key expr [register_cond]
                    expr_values ALL_OLD ;;
        ret (true, default ∅ result))
       (exn_is ConditionalCheckFailedException) (λ _, ret (false, ∅))).

Definition drop_user (uaid : string) : M bool :=
  track_provisioned "drop_user"
    (table_delete_item [VStr uaid] [CEq (OAttr "uaid") (OLit (VStr uaid))]).

Definition update_message_month (uaid : string) (month : Value) : M bool :=
  track_provisioned "update_message_month"
    (conn_update_item router_schema [VStr uaid] [USet "current_month" ":curmonth"] []
       {[ ":curmonth" := month ]} RV_NONE ;;
     ret true).

(** The condition of [clear_node]. *)
Definition clear_cond : Cond :=
  CAnd (CEq (OAttr "node_id") (OVal ":node"))
       (CEq (OAttr "connected_at") (OVal ":conn")).

(** [item] refers to the caller's [Item], as [get_uaid] returns it. *)
Definition clear_node (item : nat) : M bool :=
  track_provisioned "clear_node"
    (it <- deref item ;;
     let node_id := item_get it "node_id" in
     item_del item "node_id" ;;
     it <- deref item ;;
     try_except
       (conn_put_item router_schema (get_raw_keys router_schema it) [clear_cond]
          {[ ":node" := node_id; ":conn" := item_get it "connected_at" ]} ;;
        ret true)
       (exn_is ConditionalCheckFailedException) (λ _, ret false)).

End Router.

Global Instance placeholder_inj : Inj (=) (=) (String ":"%char).
Proof. by intros x y [=]. Qed.

(** ** Vocabulary of the statements *)

(** DynamoDB serves the next request, or throttles it. *)
Definition served (w : World) : Prop := head (faults w) ≠ Some true.
Definition throttled (w : World) : Prop := head (faults w) = Some true.

(** The world once request [r] was sent and answered ([thr]: throttled). *)
Definition after_request (r : Request) (thr : bool) (w : World) : World :=
  mkWorld (table w) (metrics w) (tail (faults w)) (sent w ++ [(r, thr)]) (heap w).

(** The condition of [registerUser] in the words of the specification: no
    [router_type] is stored or the stored one equals the new one, and no
    [node_id] is stored or the stored [connected_at] is less than the new
    one. [st] is the stored record, if any. *)
Definition may_register (st : option Item) (router_type : Value) (connected_at : Z) : Prop :=
  let old := default ∅ st in
  (old !! "router_type" = None ∨ old !! "router_type" = Some router_type) ∧
  (old !! "node_id" = None ∨
   ∃ c, old !! "connected_at" = Some (VNum c) ∧ (c < connected_at)%Z).

(** A user record, and the world in which it is both stored and held by a
    caller as object 0. *)
Definition user_record : Item :=
  {[ "uaid" := VStr "u1"; "node_id" := VStr "n1"; "connected_at" := VNum 5;
     "router_type" := VStr "simplepush"; "current_month" := VStr "message_2024_3" ]}.

Definition user_world : World :=
  mkWorld {[ ["u1"] := user_record ]} [] [] [] {[ 0%nat := user_record ]}.

(** The version stored for (uaid, chid), if any. *)
Definition stored_version (t : gmap (list string) Item) (uaid chid : string) : option Value :=
  t !! [uaid; chid] ≫= (.!! "version").



(** The record [save_notification] puts. *)
Definition notification (uaid chid : string) (version : Z) : Item :=
  {[ "uaid" := VStr uaid; "chid" := VStr chid; "version" := VNum version ]}.

(** A caller saving one version after the other for the same (uaid, chid),
    and the versions whose save returned [True]. *)
Fixpoint saves (uaid chid : string) (versions : list Z) : M (list bool) :=
  match versions with
  | [] => ret []
  | v :: versions' =>
      b <- Storage.save_notification uaid chid v ;;
      bs <- saves uaid chid versions' ;;
      ret (b :: bs)
  end.



(** DynamoDB throttles none of the coming requests. *)
Definition never_throttled (w : World) : Prop := Forall (λ f, f = false) (faults w).

(** Nothing stored, nothing counted, no request throttled. *)
Definition empty_world : World := mkWorld ∅ [] [] [] ∅.

(** A stored notification of version 3. *)
Definition notification_world : World :=
  mkWorld {[ ["u1"; "c1"] := notification "u1" "c1" 3 ]} [] [] [] ∅.


(** A stored message with a payload. *)
Definition message_record : Item :=
  {[ "uaid" := VStr "u1"; "chidmessageid" := VStr "c1:m1"; "data" := VStr "payload";
     "headers" := VMap [("encoding", "aesgcm")]; "ttl" := VNum 60;
     "timestamp" := VNum 1000; "updateid" := VStr "0f0f" ]}.

Definition message_world : World :=
  mkWorld {[ ["u1"; "c1:m1"] := message_record ]} [] [] [] ∅.

(** A user whose channel registry exists and has lost its last channel. *)
Definition registry_world : World :=
  mkWorld {[ ["u1"; " "] := {[ "uaid" := VStr "u1"; "chidmessageid" := VStr " " ]} ]}
    [] [] [] ∅.

(** The requests sent during a run that DynamoDB served. *)
Definition unthrottled (new : list (Request * bool)) : Prop :=
  Forall (λ e, e.2 = false) new.

Definition throttle_raised {A} (o : Outcome A) : bool :=
  match o with
  | Raise ProvisionedThroughputExceededException => true
  | _ => false
  end.

(** A body that leaves the counters alone and ends with the throughput error
    exactly when a request was throttled, that request being the last one it
    sent. *)
Definition passes_throttle {A} (m : M A) : Prop :=
  ∀ w, ∃ new,
    sent (m w).2 = sent w ++ new ∧ metrics (m w).2 = metrics w ∧
    if throttle_raised (m w).1
    then ∃ pre q, new = pre ++ [(q, true)] ∧ unthrottled pre
    else unthrottled new.

(** What the specification asks of the operation [op] named [name]: in a run
    without a throttled request no counter moves and no throughput error comes
    out; in any other run the throttled request is the last one sent (none is
    sent again), the counter of the operation is incremented, once, and the
    throughput error reaches the caller. *)
Definition reports_throttle {A} (name : string) (op : M A) : Prop :=
  ∀ w, ∃ new,
    sent (op w).2 = sent w ++ new ∧
    ((unthrottled new ∧ throttle_raised (op w).1 = false ∧ metrics (op w).2 = metrics w)
     ∨ (∃ pre q, new = pre ++ [(q, true)] ∧ unthrottled pre ∧
          (op w).1 = Raise ProvisionedThroughputExceededException ∧
          metrics (op w).2 = metrics w ++ ["error.provisioned." +:+ name])).

(** A world whose next request DynamoDB throttles. *)
Definition throttled_world : World := mkWorld ∅ [] [true] [] ∅.

(** The tables boto fills: every record sits under the key its own key
    attributes spell. *)
Definition keyed (schema : list string) (t : gmap (list string) Item) : Prop :=
  ∀ k it, t !! k = Some it → item_key schema it = Some k.

(** An operation under which the property [J] of the table lasts, however the
    operation ends. *)
Definition keeps_table (J : gmap (list string) Item → Prop) {A} (m : M A) : Prop :=
  ∀ w, J (table w) → J (table (m w).2).

(** What a query that names [attributes] hands out of a stored record. *)
Definition project (attributes : option (list string)) (it : Item) : Item :=
  match attributes with
  | Some attrs => filter (λ av, av.1 ∈ attrs) it
  | None => it
  end.

(** The channels stored for a user: none when there is no registry or it has
    no [chids]; undefined when [chids] is no set. *)
Definition stored_channels (t : gmap (list string) Item) (uaid : string) : option (gset string) :=
  match t !! [uaid; " "] ≫= (.!! "chids") with
  | None => Some ∅
  | Some (VSet s) => Some s
  | Some _ => None
  end.



(** The fields of an item that boto sends. *)
Definition storable (it : Item) : Item := filter (λ kv, is_storable kv.2 = true) it.


(** The month [n] calendar months after, or before, a month of a year. *)
Definition months_after (n : nat) (y m : Z) : Z * Z :=
  Nat.iter n (λ p, Calendar.month_after p.1 p.2) (y, m).
Definition months_before (n : nat) (y m : Z) : Z * Z :=
  Nat.iter n (λ p, Calendar.month_before p.1 p.2) (y, m).

(** How a run of [preflight_check] ends: it returns, an [assert] fails, or an
    exception of the operations comes through. *)
Inductive Checked : Type :=
  | Passed
  | AssertionError
  | Raised (e : Exn).

(** The first half of [preflight_check]: [False] stands for the failed
    [assert len(notifs) > 0]. *)
Definition check_storage (uaid chid : string) (version : Z) : M bool :=
  Storage.save_notification uaid chid version ;;
  notifs <- Storage.fetch_notifications uaid ;;
  if bool_decide (0 < length notifs)
  then Storage.delete_notification uaid chid (VNum version) ;; ret true
  else ret false.

(** The second half: [False] stands for the failed
    [assert item.get("node_id") == node_id]. *)
Definition check_router (uaid node_id : string) (connected_at : Z) : M bool :=
  data <- alloc {[ "uaid" := VStr uaid; "node_id" := VStr node_id;
                   "connected_at" := VNum connected_at;
                   "router_type" := VStr "simplepush" ]} ;;
  Router.register_user data ;;
  item <- Router.get_uaid uaid ;;
  it <- deref item ;;
  if bool_decide (item_get it "node_id" = VStr node_id)
  then Router.clear_node item ;; ret true
  else ret false.

(** [uaid] and [chid] stand for the two [uuid.uuid4().hex]; [storage] and
    [router] are the worlds of the two objects. *)
Definition preflight_check (uaid chid : string) (storage router : World)
    : Checked * World * World :=
  match check_storage uaid chid 12 storage with
  | (Raise e, storage') => (Raised e, storage', router)
  | (Return false, storage') => (AssertionError, storage', router)
  | (Return true, storage') =>
      match check_router uaid "mynode:2020" 0 router with
      | (Raise e, router') => (Raised e, storage', router')
      | (Return false, router') => (AssertionError, storage', router')
      | (Return true, router') => (Passed, storage', router')
      end
  end.

(** Dicts that callers hold while user u1 is stored: the record as read (0),
    a registration of u1 by another node at a later time (1), a dict without
    [uaid] (2), one without [router_type] and [connected_at] (3) and the
    registration of a user not yet stored (4). *)
Definition callers_world : World :=
  mkWorld {[ ["u1"] := user_record ]} [] [] []
    {[ 0%nat := user_record;
       1%nat := <["node_id" := VStr "n2"]> (<["connected_at" := VNum 9]> user_record);
       2%nat := delete "uaid" user_record;
       3%nat := {[ "uaid" := VStr "u1"; "node_id" := VStr "n2" ]};
       4%nat := <["uaid" := VStr "u2"]> user_record ]}.

(** A user with two channels. *)
Definition channels_world : World :=
  mkWorld {[ ["u1"; " "] := {[ "uaid" := VStr "u1"; "chidmessageid" := VStr " ";
                               "chids" := VSet {[ "c1"; "c2" ]} ]} ]}
    [] [] [] ∅.

(** * Properties *)

(** ** Rotating table names *)

Module CalendarFacts.
Import Calendar.
Local Open Scope Z_scope.

Lemma days_in_month_bounds y m : 28 ≤ days_in_month y m ≤ 31.
Proof.
  unfold days_in_month.
  repeat match goal with |- context [if ?b then _ else _] => destruct b end; lia.
Qed.

(** Up to 28 days ahead: the same month or the next one. *)
Lemma iter_next_day (k : nat) y m d :
  1 ≤ d ≤ days_in_month y m → (k ≤ 28)%nat →
  Nat.iter k next_day (Date y m d) =
    if d + Z.of_nat k <=? days_in_month y m then Date y m (d + Z.of_nat k)
    else if m <? 12 then Date y (m + 1) (d + Z.of_nat k - days_in_month y m)
    else Date (y + 1) 1 (d + Z.of_nat k - days_in_month y m).
Proof.
  intros Hd. induction k as [|k IH]; intros Hk.
  - unfold Nat.iter; cbn [nat_rect]. rewrite Nat2Z.inj_0, Z.add_0_r.
    destruct (Z.leb_spec d (days_in_month y m)); [done | lia].
  - rewrite Nat.iter_succ, IH by lia. clear IH.
    pose proof (days_in_month_bounds y (m + 1)) as Hnext.
    pose proof (days_in_month_bounds (y + 1) 1) as Hjan.
    destruct (Z.leb_spec (d + Z.of_nat k) (days_in_month y m)) as [Hle | Hgt].
    + unfold next_day; simpl.
      destruct (Z.ltb_spec (d + Z.of_nat k) (days_in_month y m)).
      * destruct (Z.leb_spec (d + Z.of_nat (S k)) (days_in_month y m)); [f_equal; lia | lia].
      * destruct (Z.leb_spec (d + Z.of_nat (S k)) (days_in_month y m)); [lia |].
        destruct (m <? 12); f_equal; lia.
    + destruct (Z.leb_spec (d + Z.of_nat (S k)) (days_in_month y m)); [lia |].
      destruct (m <? 12); unfold next_day; simpl.
      * destruct (Z.ltb_spec (d + Z.of_nat k - days_in_month y m) (days_in_month y (m + 1)));
          [f_equal; lia | lia].
      * destruct (Z.ltb_spec (d + Z.of_nat k - days_in_month y m) (days_in_month (y + 1) 1));
          [f_equal; lia | lia].
Qed.

(** Up to 28 days back: the same month or the one before. *)
Lemma iter_prev_day (k : nat) y m d :
  1 ≤ d ≤ days_in_month y m → (k ≤ 28)%nat →
  Nat.iter k prev_day (Date y m d) =
    if Z.of_nat k <? d then Date y m (d - Z.of_nat k)
    else if 1 <? m then
      Date y (m - 1) (days_in_month y (m - 1) + d - Z.of_nat k)
    else Date (y - 1) 12 (31 + d - Z.of_nat k).
Proof.
  intros Hd. induction k as [|k IH]; intros Hk.
  - unfold Nat.iter; cbn [nat_rect]. rewrite Nat2Z.inj_0, Z.sub_0_r. destruct (Z.ltb_spec 0 d); [done | lia].
  - rewrite Nat.iter_succ, IH by lia. clear IH.
    pose proof (days_in_month_bounds y (m - 1)) as Hprev.
    destruct (Z.ltb_spec (Z.of_nat k) d) as [Hlt | Hge].
    + unfold prev_day; simpl.
      destruct (Z.ltb_spec 1 (d - Z.of_nat k)).
      * destruct (Z.ltb_spec (Z.of_nat (S k)) d); [f_equal; lia | lia].
      * destruct (Z.ltb_spec (Z.of_nat (S k)) d); [lia |].
        destruct (1 <? m); f_equal; lia.
    + destruct (Z.ltb_spec (Z.of_nat (S k)) d); [lia |].
      destruct (1 <? m); unfold prev_day; simpl.
      * destruct (Z.ltb_spec 1 (days_in_month y (m - 1) + d - Z.of_nat k));
          [f_equal; lia | lia].
      * destruct (Z.ltb_spec 1 (31 + d - Z.of_nat k)); [f_equal; lia | lia].
Qed.

Lemma date_add_14 y m d :
  valid_date (Date y m d) → ¬ (y = MAXYEAR ∧ m = 12) →
  date_add (Date y m d) 14 =
    Some (if d + 14 <=? days_in_month y m then Date y m (d + 14)
          else Date (month_after y m).1 (month_after y m).2 (d + 14 - days_in_month y m)).
Proof.
  intros (Hy & Hm & Hd) Hlast. simpl in Hy, Hm, Hd. unfold MINYEAR, MAXYEAR in *.
  unfold date_add, shift_days.
  change (0 <=? 14) with true. cbv iota.
  rewrite (iter_next_day (Z.to_nat 14) y m d) by (done || lia).
  change (Z.of_nat (Z.to_nat 14)) with 14. unfold month_after, MINYEAR, MAXYEAR.
  destruct (d + 14 <=? days_in_month y m); simpl.
  - destruct (Z.leb_spec 1 y), (Z.leb_spec y 9999); simpl; done || lia.
  - destruct (Z.ltb_spec m 12), (Z.eqb_spec m 12); try lia; simpl.
    + destruct (Z.leb_spec 1 y), (Z.leb_spec y 9999); simpl; done || lia.
    + destruct (Z.leb_spec 1 (y + 1)), (Z.leb_spec (y + 1) 9999); simpl; done || lia.
Qed.

Lemma date_sub_14 y m d :
  valid_date (Date y m d) → ¬ (y = MINYEAR ∧ m = 1) →
  date_add (Date y m d) (-14) =
    Some (if 14 <? d then Date y m (d - 14)
          else Date (month_before y m).1 (month_before y m).2
                 (days_in_month (month_before y m).1 (month_before y m).2 + d - 14)).
Proof.
  intros (Hy & Hm & Hd) Hfirst. simpl in Hy, Hm, Hd. unfold MINYEAR, MAXYEAR in *.
  unfold date_add, shift_days.
  change (0 <=? -14) with false. cbv iota.
  rewrite (iter_prev_day (Z.to_nat (- -14)) y m d) by (done || lia).
  change (Z.of_nat (Z.to_nat (- -14))) with 14. unfold month_before, MINYEAR, MAXYEAR.
  destruct (14 <? d); simpl.
  - destruct (Z.leb_spec 1 y), (Z.leb_spec y 9999); simpl; done || lia.
  - destruct (Z.ltb_spec 1 m), (Z.eqb_spec m 1); try lia; simpl.
    + destruct (Z.leb_spec 1 y), (Z.leb_spec y 9999); simpl; done || lia.
    + destruct (Z.leb_spec 1 (y - 1)), (Z.leb_spec (y - 1) 9999); simpl; done || lia.
Qed.

Lemma month_after_other y m : (month_after y m).2 ≠ m.
Proof. unfold month_after. destruct (Z.eqb_spec m 12); simpl; lia. Qed.

Lemma month_before_other y m : (month_before y m).2 ≠ m.
Proof. unfold month_before. destruct (Z.eqb_spec m 1); simpl; lia. Qed.

Lemma while_left_month fuel delta last y m d :
  m ≠ last → while_same_month fuel delta last (Date y m d) = Done (Date y m d).
Proof.
  intros Hne. destruct fuel; simpl; by destruct (Z.eqb_spec m last).
Qed.

(** Going forward, the loop stops in the month after, given fuel for the
    14-day steps that stay inside the month. *)
Lemma while_forward fuel delta y m d :
  0 ≤ delta → valid_date (Date y m d) → ¬ (y = MAXYEAR ∧ m = 12) →
  days_in_month y m < d + 14 * Z.of_nat fuel →
  ∃ d', while_same_month fuel delta m (Date y m d) =
          Done (Date (month_after y m).1 (month_after y m).2 d').
Proof.
  intros Hdelta Hvalid Hlast. revert d Hvalid.
  induction fuel as [|fuel IH]; intros d Hvalid Hfuel.
  - destruct Hvalid as (_ & _ & Hd). simpl in Hd. lia.
  - cbn [while_same_month month]. rewrite Z.eqb_refl.
    destruct (Z.ltb_spec delta 0) as [|_]; [lia |].
    rewrite date_add_14 by done.
    destruct (Z.leb_spec (d + 14) (days_in_month y m)) as [Hin | Hout].
    + apply IH; [| lia].
      destruct Hvalid as (Hy & Hm & Hd). repeat split; simpl in *; lia.
    + eexists. apply while_left_month, month_after_other.
Qed.

(** Going backward, it stops in the month before. *)
Lemma while_backward fuel delta y m d :
  delta < 0 → valid_date (Date y m d) → ¬ (y = MINYEAR ∧ m = 1) →
  d ≤ 14 * Z.of_nat fuel →
  ∃ d', while_same_month fuel delta m (Date y m d) =
          Done (Date (month_before y m).1 (month_before y m).2 d').
Proof.
  intros Hdelta Hvalid Hfirst. revert d Hvalid.
  induction fuel as [|fuel IH]; intros d Hvalid Hfuel.
  - destruct Hvalid as (_ & _ & Hd). simpl in Hd. lia.
  - cbn [while_same_month month]. rewrite Z.eqb_refl.
    destruct (Z.ltb_spec delta 0) as [_|]; [| lia].
    rewrite date_sub_14 by done.
    destruct (Z.ltb_spec 14 d) as [Hin | Hout].
    + apply IH; [| lia].
      destruct Hvalid as (Hy & Hm & Hd). repeat split; simpl in *; lia.
    + eexists. apply while_left_month, month_before_other.
Qed.

Lemma get_month_today fuel today : get_month fuel today 0 = Done today.
Proof. reflexivity. Qed.

Lemma get_month_next fuel today :
  valid_date today → (3 ≤ fuel)%nat →
  ¬ (year today = MAXYEAR ∧ month today = 12) →
  ∃ d', get_month fuel today 1 =
          Done (Date (month_after (year today) (month today)).1
                     (month_after (year today) (month today)).2 d').
Proof.
  destruct today as [y m d]. intros Hvalid Hfuel Hlast. simpl in Hlast.
  destruct (while_forward fuel 1 y m d) as [d' Hrun]; [lia | done | done | |].
  { destruct Hvalid as (_ & _ & Hd). pose proof (days_in_month_bounds y m).
    simpl in Hd. lia. }
  exists d'. unfold get_month. change (Z.abs_nat 1) with 1%nat.
  cbn [for_range year month]. by rewrite Hrun.
Qed.

Lemma get_month_previous fuel today :
  valid_date today → (3 ≤ fuel)%nat →
  ¬ (year today = MINYEAR ∧ month today = 1) →
  ∃ d', get_month fuel today (-1) =
          Done (Date (month_before (year today) (month today)).1
                     (month_before (year today) (month today)).2 d').
Proof.
  destruct today as [y m d]. intros Hvalid Hfuel Hfirst. simpl in Hfirst.
  destruct (while_backward fuel (-1) y m d) as [d' Hrun]; [lia | done | done | |].
  { destruct Hvalid as (_ & _ & Hd). pose proof (days_in_month_bounds y m).
    simpl in Hd. lia. }
  exists d'. unfold get_month. change (Z.abs_nat (-1)) with 1%nat.
  cbn [for_range year month]. by rewrite Hrun.
Qed.

(** A month below ten is written with one digit. *)
Lemma pretty_month_unpadded (m : Z) : 1 ≤ m ≤ 9 → String.length (pretty m) = 1%nat.
Proof.
  intros Hm.
  assert (m = 1 ∨ m = 2 ∨ m = 3 ∨ m = 4 ∨ m = 5 ∨ m = 6 ∨ m = 7 ∨ m = 8 ∨ m = 9)
    as Hcases by lia.
  repeat destruct Hcases as [-> | Hcases]; try subst m; reflexivity.
Qed.

(** C7. For every prefix and every date [today] that [datetime.date] can hold,
    [make_rotating_tablename] returns (the loop of [get_month] ends within
    three 14-day steps) the name "{prefix}_{year}_{month}" with the numbers in
    decimal and a month below ten on one digit: for [delta = 0] of today's year
    and month, for [delta = -1] of the calendar month before, for [delta = 1]
    of the calendar month after, whatever the day of the month.  The month
    before January of [MINYEAR] and the month after December of [MAXYEAR] are
    not dates of [datetime.date]. *)
Theorem make_rotating_tablename_months (prefix : string) (today : date) (fuel : nat) :
  valid_date today → (3 ≤ fuel)%nat →
  make_rotating_tablename fuel today prefix 0 =
    Done (prefix +:+ "_" +:+ pretty (year today) +:+ "_" +:+ pretty (month today))
  ∧ (¬ (year today = MINYEAR ∧ month today = 1) →
     make_rotating_tablename fuel today prefix (-1) =
       Done (prefix +:+ "_" +:+ pretty (month_before (year today) (month today)).1
                    +:+ "_" +:+ pretty (month_before (year today) (month today)).2))
  ∧ (¬ (year today = MAXYEAR ∧ month today = 12) →
     make_rotating_tablename fuel today prefix 1 =
       Done (prefix +:+ "_" +:+ pretty (month_after (year today) (month today)).1
                    +:+ "_" +:+ pretty (month_after (year today) (month today)).2))
  ∧ (month today ≤ 9 → String.length (pretty (month today)) = 1%nat).
Proof.
  intros Hvalid Hfuel. split; [reflexivity |]. split; [| split].
  - intros Hfirst.
    destruct (get_month_previous fuel today Hvalid Hfuel Hfirst) as [d' Hrun].
    unfold make_rotating_tablename. by rewrite Hrun.
  - intros Hlast.
    destruct (get_month_next fuel today Hvalid Hfuel Hlast) as [d' Hrun].
    unfold make_rotating_tablename. by rewrite Hrun.
  - intros Hm. apply pretty_month_unpadded.
    destruct Hvalid as (_ & Hmonth & _). lia.
Qed.

Lemma make_rotating_tablename_months_witness :
  make_rotating_tablename 3 (Date 2024 3 31) "message" 0 = Done "message_2024_3"
  ∧ make_rotating_tablename 3 (Date 2024 3 31) "message" (-1) = Done "message_2024_2"
  ∧ make_rotating_tablename 3 (Date 2024 3 31) "message" 1 = Done "message_2024_4".
Proof.
  assert (Hvalid : valid_date (Date 2024 3 31)).
  { unfold valid_date, MINYEAR, MAXYEAR. simpl. vm_compute days_in_month. lia. }
  destruct (make_rotating_tablename_months "message" (Date 2024 3 31) 3 Hvalid (le_n 3))
    as (H0 & Hprev & Hnext & _).
  split; [exact H0 |]. split.
  - apply Hprev. simpl. unfold MINYEAR. lia.
  - apply Hnext. simpl. unfold MAXYEAR. lia.
Defined.

End CalendarFacts.

(** ** Running the requests *)

Lemma request_served r w :
  served w → request r w = (Return tt, after_request r false w).
Proof. unfold served, request, after_request. by destruct (faults w) as [|[] fs]. Qed.

Lemma request_throttled r w :
  throttled w →
  request r w = (Raise ProvisionedThroughputExceededException, after_request r true w).
Proof. unfold throttled, request, after_request. by destruct (faults w) as [|[] fs]. Qed.

Lemma compare_eq_decide (x : option Value) (v : Value) :
  compare_with (λ a b, bool_decide (a = b)) x (Some v) = bool_decide (x = Some v).
Proof. destruct x as [a|]; simpl; repeat case_bool_decide; congruence. Qed.

Lemma compare_lt_num (x : option Value) (n : Z) :
  compare_with value_lt x (Some (VNum n)) = true ↔
  ∃ c, x = Some (VNum c) ∧ (c < n)%Z.
Proof.
  destruct x as [[s|c|ss|m|]|]; simpl; try (split; [done | by intros (c' & [=] & _)]).
  rewrite bool_decide_eq_true. split; [eauto | by intros (c' & [= ->] & ?)].
Qed.

Lemma mapM_as_string (key : list string) : mapM as_string (VStr <$> key) = Some key.
Proof.
  induction key as [|k key IH]; [done |].
  rewrite fmap_cons. simpl. by rewrite IH.
Qed.

Lemma conn_put_item_served schema item guard vals key b w :
  served w → item_key schema item = Some key →
  eval_guard vals (default ∅ (table w !! key)) guard = Some b →
  conn_put_item schema item guard vals w =
    if b then (Return tt, set_table (<[key := item]>)
                            (after_request (PutItem item guard vals) false w))
    else (Raise ConditionalCheckFailedException,
          after_request (PutItem item guard vals) false w).
Proof.
  intros Hserved Hkey Hguard. unfold conn_put_item, bind.
  rewrite request_served by done. rewrite Hkey.
  unfold stored, gets, check_guard. cbn [table after_request].
  rewrite Hguard. by destruct b.
Qed.

Lemma conn_update_item_served schema key upd guard vals rv b w :
  served w →
  eval_guard vals (default ∅ (table w !! key)) guard = Some b →
  conn_update_item schema (VStr <$> key) upd guard vals rv w =
    let w1 := after_request (UpdateItem (VStr <$> key) upd guard vals rv) false w in
    if b then
      match apply_update vals (default (key_attrs schema key) (table w !! key)) upd with
      | Some new => (Return (returned rv upd (table w !! key)), set_table (<[key := new]>) w1)
      | None => (Raise ValidationException, w1)
      end
    else (Raise ConditionalCheckFailedException, w1).
Proof.
  intros Hserved Hguard. unfold conn_update_item, bind.
  rewrite request_served by done. unfold with_key. rewrite mapM_as_string.
  unfold stored, gets, check_guard. cbn [table after_request].
  rewrite Hguard. destruct b; [| done]. cbn.
  by destruct (apply_update _ _ _).
Qed.

Lemma table_delete_item_served key guard b w :
  served w →
  eval_guard ∅ (default ∅ (table w !! key)) guard = Some b →
  table_delete_item (VStr <$> key) guard w =
    let w1 := after_request (DeleteItem (VStr <$> key) guard) false w in
    if b then (Return true, set_table (delete key) w1) else (Return false, w1).
Proof.
  intros Hserved Hguard. unfold table_delete_item, bind.
  rewrite request_served by done. unfold with_key. rewrite mapM_as_string.
  unfold stored, gets, try_except, bind, check_guard. cbn [table after_request].
  rewrite Hguard. by destruct b.
Qed.

Lemma table_delete_item_throttled key guard w :
  throttled w →
  table_delete_item key guard w =
    (Raise ProvisionedThroughputExceededException,
     after_request (DeleteItem key guard) true w).
Proof. intros Hthr. unfold table_delete_item, bind. by rewrite request_throttled. Qed.

Lemma table_get_item_served key w :
  served w →
  table_get_item (VStr <$> key) w =
    (match table w !! key with Some it => Return it | None => Raise ItemNotFound end,
     after_request (GetItem (VStr <$> key)) false w).
Proof.
  intros Hserved. unfold table_get_item, bind.
  rewrite request_served by done. unfold with_key. rewrite mapM_as_string.
  unfold stored, gets. cbn [table after_request]. by destruct (table w !! key).
Qed.

Lemma deref_run r d w : heap w !! r = Some d → deref r w = (Return d, w).
Proof. unfold deref, gets. by intros ->. Qed.

Lemma item_del_run r k d w :
  heap w !! r = Some d →
  item_del r k w = (Return tt, set_heap (<[r := delete k d]>) w).
Proof.
  intros Hr. unfold item_del, bind. rewrite (deref_run _ _ _ Hr).
  destruct (d !! k) eqn:Hk; [reflexivity |].
  unfold ret, set_heap. rewrite delete_id, insert_id by done. by destruct w.
Qed.

Lemma dict_pop_run r k d v w :
  heap w !! r = Some d → d !! k = Some v →
  dict_pop r k w = (Return v, set_heap (<[r := delete k d]>) w).
Proof.
  intros Hr Hk. unfold dict_pop, bind. rewrite (deref_run _ _ _ Hr), Hk. reflexivity.
Qed.

Lemma lookup_placeholders (d : Item) (k : string) :
  placeholders d !! (":" +:+ k) = d !! k.
Proof. unfold placeholders. apply (lookup_kmap (String ":"%char)). Qed.

Ltac run_cases :=
  repeat (simpl in *; simplify_eq; try done; case_match).

Lemma conn_update_item_heap schema key upd guard vals rv w :
  heap (conn_update_item schema key upd guard vals rv w).2 = heap w.
Proof.
  unfold conn_update_item, bind, request, with_key, stored, gets, check_guard,
    raise, ret, modify, set_table.
  run_cases.
Qed.

Lemma conn_put_item_heap schema item guard vals w :
  heap (conn_put_item schema item guard vals w).2 = heap w.
Proof.
  unfold conn_put_item, bind, request, stored, gets, check_guard,
    raise, ret, modify, set_table.
  run_cases.
Qed.

(** ** The router *)

Module RouterFacts.
Import Router.

Lemma get_raw_keys_router it :
  get_raw_keys router_schema it = {[ "uaid" := item_get it "uaid" ]}.
Proof. unfold get_raw_keys, router_schema. simpl. by rewrite insert_empty. Qed.

Lemma item_key_router u : item_key router_schema {[ "uaid" := VStr u ]} = Some [u].
Proof. unfold item_key, router_schema. simpl. by rewrite lookup_singleton_eq. Qed.

Lemma eval_clear_cond (n c : Value) (st : Item) :
  eval_guard {[ ":node" := n; ":conn" := c ]} st [clear_cond] =
    Some (bool_decide (st !! "node_id" = Some n)
          && bool_decide (st !! "connected_at" = Some c)).
Proof.
  unfold clear_cond. cbn [eval_guard eval_cond eval_operand].
  rewrite lookup_insert_eq, lookup_insert_ne, lookup_singleton_eq by done.
  simpl. rewrite !compare_eq_decide. by rewrite andb_true_r.
Qed.

(** What [clear_node] does when its request is served: it succeeds exactly
    when the stored [node_id] and [connected_at] are those of the caller's
    item, and the item it then puts holds the key alone. *)
Lemma clear_node_run w item it u :
  heap w !! item = Some it → it !! "uaid" = Some (VStr u) → served w →
  let st := default ∅ (table w !! [u]) in
  let matches := bool_decide (st !! "node_id" = Some (item_get it "node_id"))
                 && bool_decide (st !! "connected_at" = Some (item_get it "connected_at")) in
  ∃ w', clear_node item w = (Return matches, w')
      ∧ table w' = (if matches then <[ [u] := {[ "uaid" := VStr u ]} ]> (table w)
                    else table w)
      ∧ heap w' = <[ item := delete "node_id" it ]> (heap w)
      ∧ metrics w' = metrics w.
Proof.
  intros Hitem Huaid Hserved st matches.
  set (it' := delete "node_id" it).
  set (w1 := set_heap (<[item := it']>) w).
  assert (Hit' : heap w1 !! item = Some it') by apply lookup_insert_eq.
  assert (Huaid' : item_get it' "uaid" = VStr u).
  { unfold item_get, it'. by rewrite lookup_delete_ne, Huaid. }
  assert (Hconn : item_get it' "connected_at" = item_get it "connected_at").
  { unfold item_get, it'. by rewrite lookup_delete_ne. }
  assert (Hguard : eval_guard {[ ":node" := item_get it "node_id";
                                 ":conn" := item_get it "connected_at" ]}
            (default ∅ (table w1 !! [u])) [clear_cond] = Some matches)
    by apply eval_clear_cond.
  unfold clear_node, track_provisioned, try_except, bind.
  rewrite (deref_run _ _ _ Hitem), (item_del_run _ _ _ _ Hitem).
  fold it' w1. rewrite (deref_run _ _ _ Hit'), get_raw_keys_router, Huaid', Hconn.
  rewrite (conn_put_item_served _ _ _ _ [u] matches) by (done || apply item_key_router).
  destruct matches; eexists; (split; [reflexivity |]); done.
Qed.

(** C1, on the code. A node releases the user whose record it has just read:
    the stored [node_id] and [connected_at] equal the snapshot's, and
    [clear_node] succeeds. The record stored afterwards is the key alone:
    [connected_at], [router_type] and [current_month] went with [node_id],
    since the item [clear_node] puts is [item.get_raw_keys()]. *)
Theorem clear_node_erases_record :
  (clear_node 0 user_world).1 = Return true ∧
  table (clear_node 0 user_world).2 !! ["u1"] = Some {[ "uaid" := VStr "u1" ]} ∧
  (user_record !! "connected_at" = Some (VNum 5) ∧
   table (clear_node 0 user_world).2 !! ["u1"] ≫= (.!! "connected_at") = None) ∧
  (user_record !! "router_type" = Some (VStr "simplepush") ∧
   table (clear_node 0 user_world).2 !! ["u1"] ≫= (.!! "router_type") = None) ∧
  (user_record !! "current_month" = Some (VStr "message_2024_3") ∧
   table (clear_node 0 user_world).2 !! ["u1"] ≫= (.!! "current_month") = None).
Proof. repeat split; vm_compute; reflexivity. Qed.

Lemma eval_register_cond (d st : Item) (rt : Value) (ca : Z) :
  d !! "router_type" = Some rt → d !! "connected_at" = Some (VNum ca) →
  ∃ ok, eval_guard (placeholders d) st [register_cond] = Some ok ∧
        (ok = true ↔ may_register (Some st) rt ca).
Proof.
  intros Hrt Hca. unfold register_cond, may_register.
  cbn [eval_guard eval_cond eval_operand default from_option id].
  change ":router_type" with (":" +:+ "router_type").
  change ":connected_at" with (":" +:+ "connected_at").
  rewrite !lookup_placeholders, Hrt, Hca. simpl.
  eexists; split; [reflexivity |].
  rewrite andb_true_r, andb_true_iff, !orb_true_iff, compare_eq_decide,
    !bool_decide_eq_true, compare_lt_num. done.
Qed.

(** [SET k = :k] for the keys [ks] of [d], with the values [d] has for them. *)
Lemma apply_update_sets (d : Item) (ks : list string) (base : Item) :
  (∀ k, k ∈ ks → is_Some (d !! k)) →
  ∃ new, apply_update (placeholders d) base ((λ x, USet x (":" +:+ x)) <$> ks) = Some new ∧
         ∀ a, new !! a = if decide (a ∈ ks) then d !! a else base !! a.
Proof.
  revert base. induction ks as [|k ks IH]; intros base Hks.
  - exists base. split; [done |]. intros a. rewrite decide_False; [done |].
    apply not_elem_of_nil.
  - destruct (Hks k) as [v Hv]; [apply list_elem_of_here |].
    destruct (IH (<[k := v]> base)) as (new & Hnew & Hlook).
    { intros k' Hk'. by apply Hks, list_elem_of_further. }
    exists new. split.
    + rewrite fmap_cons. cbn [apply_update apply_action].
      rewrite lookup_placeholders, Hv. simpl. exact Hnew.
    + intros a. rewrite Hlook.
      destruct (decide (a ∈ ks)) as [Hin | Hout].
      * rewrite decide_True; [done |]. by apply list_elem_of_further.
      * destruct (decide (a = k)) as [-> | Hne].
        -- rewrite decide_True, lookup_insert_eq; [done | apply list_elem_of_here].
        -- rewrite decide_False, lookup_insert_ne; [done | done |].
           intros [-> | Hin]%elem_of_cons; done.
Qed.

Lemma apply_update_all (d base : Item) :
  apply_update (placeholders d) base ((λ x, USet x (":" +:+ x)) <$> (map_to_list d).*1)
    = Some (d ∪ base).
Proof.
  destruct (apply_update_sets d (map_to_list d).*1 base) as (new & -> & Hlook).
  { intros k Hk. apply list_elem_of_fmap in Hk as ([k' v] & -> & Hk).
    apply elem_of_map_to_list in Hk. by exists v. }
  f_equal. apply map_eq. intros a. rewrite Hlook, lookup_union.
  destruct (d !! a) as [v|] eqn:Ha.
  - rewrite decide_True.
    + by destruct (base !! a).
    + apply list_elem_of_fmap. exists (a, v). split; [done |]. by apply elem_of_map_to_list.
  - rewrite decide_False.
    + by destruct (base !! a).
    + intros Hk. apply list_elem_of_fmap in Hk as ([k' v] & -> & Hk).
      apply elem_of_map_to_list in Hk. simpl in Ha. congruence.
Qed.



(** C9. [register_user] pops ["uaid"] from the caller's dict and [clear_node]
    deletes ["node_id"] from the caller's item: whatever the call then does
    (it may succeed, return false on a failed condition, or raise), the object
    the caller passed is left without the key. *)
Theorem arguments_are_mutated w r d :
  heap w !! r = Some d →
  heap (register_user r w).2 !! r = Some (delete "uaid" d) ∧
  heap (clear_node r w).2 !! r = Some (delete "node_id" d).
Proof.
  intros Hr. split.
  - unfold register_user, track_provisioned, try_except, bind, dict_pop, bind.
    rewrite (deref_run _ _ _ Hr).
    destruct (d !! "uaid") as [v|] eqn:Hv.
    + set (w1 := set_heap (<[r := delete "uaid" d]>) w).
      change (assign r (delete "uaid" d) w) with (Return tt, w1).
      cbn iota beta. change (ret v w1) with (Return v, w1). cbn iota beta.
      assert (Hr1 : heap w1 !! r = Some (delete "uaid" d)) by apply lookup_insert_eq.
      rewrite (deref_run _ _ _ Hr1).
      match goal with |- context [conn_update_item ?s ?k ?u ?g ?v ?rv w1] =>
        pose proof (conn_update_item_heap s k u g v rv w1) as Hheap;
        destruct (conn_update_item s k u g v rv w1) as [[res|e] w2]
      end; simpl in Hheap.
      * simpl. by rewrite Hheap.
      * destruct e; simpl; by rewrite Hheap.
    + simpl. by rewrite delete_id.
  - unfold clear_node, track_provisioned, try_except, bind.
    rewrite (deref_run _ _ _ Hr), (item_del_run _ _ _ _ Hr).
    set (w1 := set_heap (<[r := delete "node_id" d]>) w).
    assert (Hr1 : heap w1 !! r = Some (delete "node_id" d)) by apply lookup_insert_eq.
    rewrite (deref_run _ _ _ Hr1).
    match goal with |- context [conn_put_item ?s ?i ?g ?v w1] =>
      pose proof (conn_put_item_heap s i g v w1) as Hheap;
      destruct (conn_put_item s i g v w1) as [[res|e] w2]
    end; simpl in Hheap.
    + simpl. by rewrite Hheap.
    + destruct e; simpl; by rewrite Hheap.
Qed.

Lemma arguments_are_mutated_witness :
  (register_user 0 user_world).1 = Return (false, ∅) ∧
  heap (register_user 0 user_world).2 !! 0%nat = Some (delete "uaid" user_record) ∧
  heap (clear_node 0 user_world).2 !! 0%nat = Some (delete "node_id" user_record).
Proof.
  split; [vm_compute; reflexivity |].
  apply (arguments_are_mutated user_world 0 user_record).
  vm_compute; reflexivity.
Defined.

End RouterFacts.

(** ** Legacy notifications *)

Module StorageFacts.
Import Storage.
Local Open Scope Z_scope.

Lemma item_key_notification u c v : item_key storage_schema (notification u c v) = Some [u; c].
Proof.
  unfold item_key, storage_schema, notification. cbn [mapM].
  rewrite lookup_insert_eq, lookup_insert_ne, lookup_insert_eq by done. reflexivity.
Qed.

Lemma eval_save_cond (v : Z) (st : Item) :
  eval_guard {[ ":ver" := VNum v ]} st
    [COr (attribute_not_exists "version") (CLt (OAttr "version") (OVal ":ver"))] =
  Some (bool_decide (st !! "version" = None)
        || compare_with value_lt (st !! "version") (Some (VNum v))).
Proof.
  cbn [eval_guard eval_cond eval_operand]. rewrite lookup_singleton_eq. simpl.
  by rewrite andb_true_r.
Qed.

Lemma stored_version_lookup t u c :
  default ∅ (t !! [u; c]) !! "version" = stored_version t u c.
Proof. unfold stored_version. by destruct (t !! [u; c]). Qed.

(** One save, when its request is served. *)
Lemma save_notification_run u c v w :
  served w →
  let ok := bool_decide (stored_version (table w) u c = None)
            || compare_with value_lt (stored_version (table w) u c) (Some (VNum v)) in
  ∃ w', save_notification u c v w = (Return ok, w') ∧
        table w' = (if ok then <[ [u; c] := notification u c v ]> (table w) else table w) ∧
        metrics w' = metrics w ∧ faults w' = tail (faults w).
Proof.
  intros Hserved ok.
  unfold save_notification, track_provisioned, try_except, bind. fold (notification u c v).
  rewrite (conn_put_item_served _ _ _ _ [u; c] ok);
    [| done | apply item_key_notification
     | by rewrite eval_save_cond, stored_version_lookup].
  destruct ok; eexists; (split; [reflexivity |]); done.
Qed.




Lemma never_throttled_served w : never_throttled w → served w.
Proof.
  unfold never_throttled, served. destruct (faults w) as [|f fs]; [done |].
  intros Hall [= ->]. by apply Forall_cons in Hall as [? _].
Qed.

Lemma never_throttled_tail w w' :
  never_throttled w → faults w' = tail (faults w) → never_throttled w'.
Proof.
  unfold never_throttled. intros Hall ->.
  destruct (faults w); [done |]. by apply Forall_cons in Hall as [_ ?].
Qed.





(** On a stored version 3: 5 replaces it, 4 is turned down, 7 replaces 5. *)
Example saves_5_4_7 :
  (saves "u1" "c1" [5; 4; 7] notification_world).1 = Return [true; false; true] ∧
  stored_version (table (saves "u1" "c1" [5; 4; 7] notification_world).2) "u1" "c1"
    = Some (VNum 7).
Proof. split; vm_compute; reflexivity. Qed.

(** What [delete_notification] does when its request is served: the answer is
    [True] whether or not the expected version was the stored one. *)
Lemma delete_notification_served u c version w :
  served w →
  let guard := if truthy version then [CEq (OAttr "version") (OLit version)] else [] in
  let holds := if truthy version
               then bool_decide (stored_version (table w) u c = Some version)
               else true in
  ∃ w', delete_notification u c version w = (Return true, w') ∧
        table w' = (if holds then delete [u; c] (table w) else table w) ∧
        sent w' = sent w ++ [(DeleteItem [VStr u; VStr c] guard, false)] ∧
        metrics w' = metrics w.
Proof.
  intros Hserved guard holds.
  assert (Hguard : eval_guard ∅ (default ∅ (table w !! [u; c])) guard = Some holds).
  { unfold guard, holds. destruct (truthy version); [| done].
    cbn [eval_guard eval_cond eval_operand]. simpl.
    by rewrite stored_version_lookup, compare_eq_decide, andb_true_r. }
  unfold delete_notification, try_except, bind.
  change [VStr u; VStr c] with (VStr <$> [u; c]).
  assert (Hrun := table_delete_item_served [u; c] guard holds w Hserved Hguard).
  unfold guard in Hrun. cbv zeta in Hrun.
  destruct (truthy version); rewrite Hrun; destruct holds; eexists;
    (split; [reflexivity |]); done.
Qed.

(** A throttled delete is counted and answered with [False]. *)
Lemma delete_notification_throttled u c version w :
  throttled w →
  ∃ w', delete_notification u c version w = (Return false, w') ∧
        table w' = table w ∧
        metrics w' = metrics w ++ ["error.provisioned.delete_notification"] ∧
        length (sent w') = S (length (sent w)).
Proof.
  intros Hthr. unfold delete_notification, try_except, bind.
  destruct (truthy version); rewrite table_delete_item_throttled by done;
    eexists; (split; [reflexivity |]); simpl; rewrite length_app; simpl;
    repeat split; lia.
Qed.

(** C5, on the code. Version 3 is stored for (u1, c1) and the caller deletes
    with expected version 9: the condition fails, nothing is deleted, and
    [delete_notification] answers [True], having dropped the [False] that
    [Table.delete_item] returned. *)
Theorem delete_notification_mismatch_returns_true :
  stored_version (table notification_world) "u1" "c1" = Some (VNum 3) ∧
  (delete_notification "u1" "c1" (VNum 9) notification_world).1 = Return true ∧
  table (delete_notification "u1" "c1" (VNum 9) notification_world).2
    = table notification_world.
Proof. repeat split; vm_compute; reflexivity. Qed.


(** Save version 1, fetch it, delete it with the expected version, fetch
    nothing. *)
Example notification_round_trip :
  let w1 := (save_notification "u1" "c1" 1 empty_world).2 in
  let w2 := (delete_notification "u1" "c1" (VNum 1) w1).2 in
  (save_notification "u1" "c1" 1 empty_world).1 = Return true ∧
  (fetch_notifications "u1" w1).1 = Return [notification "u1" "c1" 1] ∧
  (delete_notification "u1" "c1" (VNum 1) w1).1 = Return true ∧
  (fetch_notifications "u1" w2).1 = Return [].
Proof. repeat split; vm_compute; reflexivity. Qed.

End StorageFacts.

(** ** Messages and channels *)

Module MessageFacts.
Import Message.





(** What [all_channels] does when its request is served. *)
Lemma all_channels_run u w :
  served w →
  ∃ w', all_channels u w =
          (Return (match table w !! [u; " "] with
                   | Some it => (true, py_or (item_get it "chids") (VSet ∅))
                   | None => (false, VSet ∅)
                   end), w') ∧
        table w' = table w ∧ metrics w' = metrics w.
Proof.
  intros Hserved. unfold all_channels, track_provisioned, try_except, bind, registry_key.
  change [VStr u; VStr " "] with (VStr <$> [u; " "]).
  rewrite table_get_item_served by done.
  destruct (table w !! [u; " "]); eexists; (split; [reflexivity |]); done.
Qed.

(** C10. When the request is served, [all_channels] answers [found = False]
    (with the empty set) exactly when no registry record is stored for the
    user; when the record is stored and has no [chids], or an empty one, it
    answers [found = True] with the empty set. *)
Theorem all_channels_found u w :
  served w →
  ∃ found chids,
    (all_channels u w).1 = Return (found, chids) ∧
    (found = false ↔ table w !! [u; " "] = None) ∧
    (found = false → chids = VSet ∅) ∧
    (∀ it, table w !! [u; " "] = Some it →
           it !! "chids" = None ∨ it !! "chids" = Some (VSet ∅) →
           found = true ∧ chids = VSet ∅).
Proof.
  intros Hserved. destruct (all_channels_run u w Hserved) as (w' & Hrun & _).
  rewrite Hrun. simpl.
  destruct (table w !! [u; " "]) as [it|] eqn:Hit.
  - exists true, (py_or (item_get it "chids") (VSet ∅)).
    split; [done |]. split; [done |]. split; [done |].
    intros it' [= <-] [Hnone | Hempty]; (split; [done |]); unfold item_get.
    + by rewrite Hnone.
    + by rewrite Hempty.
  - exists false, (VSet ∅). repeat split; done.
Qed.

Lemma all_channels_found_witness :
  ∃ found chids,
    (all_channels "u1" registry_world).1 = Return (found, chids) ∧
    found = true ∧ chids = VSet ∅.
Proof.
  assert (Hserved : served registry_world) by (unfold served; simpl; congruence).
  destruct (all_channels_found "u1" registry_world Hserved)
    as (found & chids & Hrun & _ & _ & Hrecord).
  exists found, chids. split; [exact Hrun |].
  apply (Hrecord {[ "uaid" := VStr "u1"; "chidmessageid" := VStr " " ]}).
  - vm_compute; reflexivity.
  - left. vm_compute; reflexivity.
Defined.

(** What [delete_message] does when its request is served: as
    [delete_notification], it answers [True] either way. *)
Lemma delete_message_served u ch mid updateid w :
  served w →
  let key := [u; chidmessageid ch mid] in
  let guard := if truthy updateid then [CEq (OAttr "updateid") (OLit updateid)] else [] in
  let holds := if truthy updateid
               then bool_decide (default ∅ (table w !! key) !! "updateid" = Some updateid)
               else true in
  ∃ w', delete_message u ch mid updateid w = (Return true, w') ∧
        table w' = (if holds then delete key (table w) else table w) ∧
        sent w' = sent w ++ [(DeleteItem (VStr <$> key) guard, false)] ∧
        metrics w' = metrics w.
Proof.
  intros Hserved key guard holds.
  assert (Hguard : eval_guard ∅ (default ∅ (table w !! key)) guard = Some holds).
  { unfold guard, holds. destruct (truthy updateid); [| done].
    cbn [eval_guard eval_cond eval_operand]. simpl.
    by rewrite compare_eq_decide, andb_true_r. }
  unfold delete_message, track_provisioned, try_except, bind.
  change [VStr u; VStr (chidmessageid ch mid)] with (VStr <$> key).
  assert (Hrun := table_delete_item_served key guard holds w Hserved Hguard).
  unfold guard in Hrun. cbv zeta in Hrun.
  destruct (truthy updateid); rewrite Hrun; destruct holds; eexists;
    (split; [reflexivity |]); done.
Qed.

(** A stored message is updated; one never stored is not. *)
Example store_then_update_message :
  let w1 := (store_message "u1" "c1" "m1" 60 (VStr "payload") VNone VNone 1000 "0f0f"
               empty_world).2 in
  (update_message "u1" "c1" "m1" 120 VNone VNone VNone 2000 "abcd" w1).1 = Return true ∧
  table (update_message "u1" "c1" "m1" 120 VNone VNone VNone 2000 "abcd" w1).2
    !! ["u1"; "c1:m1"]
    = Some {[ "uaid" := VStr "u1"; "chidmessageid" := VStr "c1:m1"; "ttl" := VNum 120;
              "timestamp" := VNum 2000; "updateid" := VStr "abcd" ]} ∧
  (update_message "u1" "c1" "m2" 120 VNone VNone VNone 2000 "abcd" w1).1 = Return false.
Proof. repeat split; vm_compute; reflexivity. Qed.

End MessageFacts.

(** ** Optional guards *)

Module GuardFacts.

(** C8. The optional guards are tested for truth, not for presence: when its
    request is served, [delete_notification] with [version=0] sends a delete
    without condition and the record goes whatever version it holds, and
    [delete_message] with the empty string for [updateid] sends a delete
    without condition and the message goes whatever [updateid] it holds. *)
Theorem falsy_guards_delete_unconditionally u c ch mid w :
  served w →
  (∃ w', Storage.delete_notification u c (VNum 0) w = (Return true, w') ∧
         sent w' = sent w ++ [(DeleteItem [VStr u; VStr c] [], false)] ∧
         table w' = delete [u; c] (table w)) ∧
  (∃ w', Message.delete_message u ch mid (VStr "") w = (Return true, w') ∧
         sent w' = sent w ++ [(DeleteItem [VStr u; VStr (chidmessageid ch mid)] [], false)] ∧
         table w' = delete [u; chidmessageid ch mid] (table w)).
Proof.
  intros Hserved. split.
  - destruct (StorageFacts.delete_notification_served u c (VNum 0) w Hserved)
      as (w' & Hrun & Htable & Hsent & _).
    by exists w'.
  - destruct (MessageFacts.delete_message_served u ch mid (VStr "") w Hserved)
      as (w' & Hrun & Htable & Hsent & _).
    by exists w'.
Qed.

Lemma falsy_guards_delete_unconditionally_witness :
  stored_version (table notification_world) "u1" "c1" = Some (VNum 3) ∧
  ∃ w', Storage.delete_notification "u1" "c1" (VNum 0) notification_world
          = (Return true, w') ∧
        table w' !! ["u1"; "c1"] = None.
Proof.
  split; [vm_compute; reflexivity |].
  assert (Hserved : served notification_world) by (unfold served; simpl; congruence).
  destruct (falsy_guards_delete_unconditionally "u1" "c1" "c1" "m1" notification_world Hserved)
    as [(w' & Hrun & _ & Htable) _].
  exists w'. split; [exact Hrun |]. rewrite Htable. apply lookup_delete_eq.
Defined.

(** The same for a message: it goes although its [updateid] is not empty. *)
Example delete_message_empty_updateid :
  message_record !! "updateid" = Some (VStr "0f0f") ∧
  (Message.delete_message "u1" "c1" "m1" (VStr "") message_world).1 = Return true ∧
  table (Message.delete_message "u1" "c1" "m1" (VStr "") message_world).2
    !! ["u1"; "c1:m1"] = None.
Proof. repeat split; vm_compute; reflexivity. Qed.

End GuardFacts.

(** ** Throttled requests *)

Module ThrottleFacts.

Lemma throttle_raised_true {A} (o : Outcome A) :
  throttle_raised o = true ↔ o = Raise ProvisionedThroughputExceededException.
Proof. destruct o as [a|[]]; simpl; split; congruence. Qed.

Lemma passes_ret {A} (a : A) : passes_throttle (ret a).
Proof. intros w. exists []. simpl. rewrite app_nil_r. repeat split. constructor. Qed.

Lemma passes_raise {A} (e : Exn) :
  e ≠ ProvisionedThroughputExceededException → passes_throttle (@raise A e).
Proof.
  intros He w. exists []. simpl. rewrite app_nil_r. repeat split.
  destruct e; try done; constructor.
Qed.

Lemma passes_gets {A} (f : World → A) : passes_throttle (gets f).
Proof. intros w. exists []. simpl. rewrite app_nil_r. repeat split. constructor. Qed.

Lemma passes_modify (f : World → World) :
  (∀ w, sent (f w) = sent w ∧ metrics (f w) = metrics w) → passes_throttle (modify f).
Proof.
  intros Hf w. exists []. simpl. rewrite app_nil_r.
  destruct (Hf w) as [-> ->]. repeat split. constructor.
Qed.

Lemma passes_request r : passes_throttle (request r).
Proof.
  intros w. unfold request.
  destruct (faults w) as [|[] fs]; simpl.
  - exists [(r, false)]. repeat split. by repeat constructor.
  - exists [(r, true)]. repeat split. exists [], r. split; [done | constructor].
  - exists [(r, false)]. repeat split. by repeat constructor.
Qed.

Lemma passes_bind {A B} (m : M A) (k : A → M B) :
  passes_throttle m → (∀ a, passes_throttle (k a)) → passes_throttle (bind m k).
Proof.
  intros Hm Hk w. unfold bind.
  destruct (Hm w) as (new1 & Hsent1 & Hmet1 & Hout1).
  destruct (m w) as [[a|e] w1]; simpl in *.
  - destruct (Hk a w1) as (new2 & Hsent2 & Hmet2 & Hout2).
    exists (new1 ++ new2). rewrite Hsent2, Hsent1, Hmet2, Hmet1, app_assoc.
    split; [done |]. split; [done |].
    destruct (throttle_raised (k a w1).1).
    + destruct Hout2 as (pre & q & -> & Hpre).
      exists (new1 ++ pre), q. rewrite app_assoc. split; [done |].
      by apply Forall_app.
    + by apply Forall_app.
  - exists new1. done.
Qed.

Lemma passes_try {A} (m : M A) (handles : Exn → bool) (h : Exn → M A) :
  handles ProvisionedThroughputExceededException = false →
  passes_throttle m → (∀ e, handles e = true → passes_throttle (h e)) →
  passes_throttle (try_except m handles h).
Proof.
  intros Hnot Hm Hh w. unfold try_except.
  destruct (Hm w) as (new1 & Hsent1 & Hmet1 & Hout1).
  destruct (m w) as [[a|e] w1]; simpl in *.
  - exists new1. done.
  - destruct (handles e) eqn:He.
    + assert (unthrottled new1) as Hquiet.
      { destruct e; try done. congruence. }
      clear Hout1. rename Hquiet into Hout1.
      destruct (Hh e He w1) as (new2 & Hsent2 & Hmet2 & Hout2).
      exists (new1 ++ new2). rewrite Hsent2, Hsent1, Hmet2, Hmet1, app_assoc.
      split; [done |]. split; [done |].
      destruct (throttle_raised (h e w1).1).
      * destruct Hout2 as (pre & q & -> & Hpre).
        exists (new1 ++ pre), q. rewrite app_assoc. split; [done |].
        by apply Forall_app.
      * by apply Forall_app.
    + exists new1. done.
Qed.

Lemma passes_alloc it : passes_throttle (alloc it).
Proof. intros w. exists []. simpl. rewrite app_nil_r. repeat split. constructor. Qed.

Ltac passes :=
  repeat first
    [ apply passes_ret
    | apply passes_gets
    | apply passes_request
    | apply passes_alloc
    | apply passes_raise; done
    | apply passes_modify; done
    | apply passes_bind; [| intros ?]
    | apply passes_try; [done | | intros ? ?]
    | progress cbv zeta
    | progress unfold conn_put_item, conn_update_item, table_delete_item,
        table_get_item, table_put_item, table_query_2, batch_write, with_key,
        check_guard, stored, deref, assign, dict_pop, item_del
    | case_match ].

Lemma track_provisioned_reports {A} name (m : M A) :
  passes_throttle m → reports_throttle name (track_provisioned name m).
Proof.
  intros Hm w. unfold track_provisioned, try_except.
  destruct (Hm w) as (new & Hsent & Hmet & Hout).
  destruct (m w) as [[a|e] w1]; simpl in *.
  - exists new. split; [done |]. by left.
  - destruct e; simpl in *; try (exists new; split; [done |]; by left).
    exists new. split; [done |]. right.
    destruct Hout as (pre & q & -> & Hpre). exists pre, q. by rewrite Hmet.
Qed.


Lemma get_uaid_reports uaid : reports_throttle "get_uaid" (Router.get_uaid uaid).
Proof.
  assert (Hbody : passes_throttle (item <- table_get_item [VStr uaid] ;; alloc item))
    by passes.
  intros w. unfold Router.get_uaid.
  set (body := bind _ _) in *. unfold try_except.
  destruct (Hbody w) as (new & Hsent & Hmet & Hout).
  destruct (body w) as [[a|e] w1]; simpl in *.
  - exists new. split; [done |]. by left.
  - destruct e; simpl in *; try (exists new; split; [done |]; by left).
    exists new. split; [done |]. right.
    destruct Hout as (pre & q & -> & Hpre). exists pre, q. by rewrite Hmet.
Qed.

(** [delete_notification] counts the throttled request as well, and answers
    [False] in place of the exception. *)
Lemma delete_notification_degrades u c version : ∀ w, ∃ new,
  sent (Storage.delete_notification u c version w).2 = sent w ++ new ∧
  ((unthrottled new ∧
    throttle_raised (Storage.delete_notification u c version w).1 = false ∧
    metrics (Storage.delete_notification u c version w).2 = metrics w)
   ∨ (∃ pre q, new = pre ++ [(q, true)] ∧ unthrottled pre ∧
        (Storage.delete_notification u c version w).1 = Return false ∧
        metrics (Storage.delete_notification u c version w).2
          = metrics w ++ ["error.provisioned.delete_notification"])).
Proof.
  assert (Hbody : passes_throttle
    ((if truthy version
      then table_delete_item [VStr u; VStr c] [CEq (OAttr "version") (OLit version)]
      else table_delete_item [VStr u; VStr c] []) ;; ret true)) by passes.
  intros w. unfold Storage.delete_notification.
  set (body := bind _ _) in *. unfold try_except.
  destruct (Hbody w) as (new & Hsent & Hmet & Hout).
  destruct (body w) as [[a|e] w1]; simpl in *.
  - exists new. split; [done |]. by left.
  - destruct e; simpl in *; try (exists new; split; [done |]; by left).
    exists new. split; [done |]. right.
    destruct Hout as (pre & q & -> & Hpre). exists pre, q. by rewrite Hmet.
Qed.

(** The methods that carry [@track_provisioned], and [get_uaid], which
    counts by hand, report a throttled request as the specification asks. *)
Lemma decorated_operations_report :
  (∀ u, reports_throttle "fetch_notifications" (Storage.fetch_notifications u)) ∧
  (∀ u c v, reports_throttle "save_notification" (Storage.save_notification u c v)) ∧
  (∀ u c, reports_throttle "register_channel" (Message.register_channel u c)) ∧
  (∀ u c, reports_throttle "unregister_channel" (Message.unregister_channel u c)) ∧
  (∀ u, reports_throttle "all_channels" (Message.all_channels u)) ∧
  (∀ u cs, reports_throttle "save_channels" (Message.save_channels u cs)) ∧
  (∀ u c m ttl d h t now id,
     reports_throttle "store_message" (Message.store_message u c m ttl d h t now id)) ∧
  (∀ u c m ttl d h t now id,
     reports_throttle "update_message" (Message.update_message u c m ttl d h t now id)) ∧
  (∀ u c m id, reports_throttle "delete_message" (Message.delete_message u c m id)) ∧
  (∀ u c, reports_throttle "delete_messages_for_channel"
            (Message.delete_messages_for_channel u c)) ∧
  (∀ u, reports_throttle "delete_user" (Message.delete_user u)) ∧
  (∀ u n, reports_throttle "fetch_messages" (Message.fetch_messages u n)) ∧
  (∀ u, reports_throttle "get_uaid" (Router.get_uaid u)) ∧
  (∀ d, reports_throttle "register_user" (Router.register_user d)) ∧
  (∀ u, reports_throttle "drop_user" (Router.drop_user u)) ∧
  (∀ u m, reports_throttle "update_message_month" (Router.update_message_month u m)) ∧
  (∀ i, reports_throttle "clear_node" (Router.clear_node i)).
Proof.
  repeat split; intros; try apply get_uaid_reports;
    apply track_provisioned_reports; unfold Message.delete_messages; passes.
Qed.

(** C3, on the code. [delete_messages] carries no decorator: when DynamoDB
    throttles its batch write, the throughput error reaches the caller (the
    request is not sent again) and no counter has moved, so that what holds of
    the other operations does not hold of this one. *)
Theorem delete_messages_throttle_uncounted :
  (Message.delete_messages "u1" [Some "c1:m1"] throttled_world).1
    = Raise ProvisionedThroughputExceededException ∧
  sent (Message.delete_messages "u1" [Some "c1:m1"] throttled_world).2
    = [(BatchWriteItem [[VStr "u1"; VStr "c1:m1"]], true)] ∧
  metrics (Message.delete_messages "u1" [Some "c1:m1"] throttled_world).2 = [] ∧
  ¬ reports_throttle "delete_messages" (Message.delete_messages "u1" [Some "c1:m1"]).
Proof.
  split; [vm_compute; reflexivity |]. split; [vm_compute; reflexivity |].
  split; [vm_compute; reflexivity |].
  intros Hreports.
  destruct (Hreports throttled_world)
    as (new & _ & [(_ & Hquiet & _) | (pre & q & _ & _ & _ & Hcount)]).
  - vm_compute in Hquiet. discriminate.
  - vm_compute in Hcount. discriminate.
Qed.

End ThrottleFacts.

(** ** Worlds at rest *)

Lemma keyed_singleton schema k (it : Item) :
  item_key schema it = Some k → keyed schema {[ k := it ]}.
Proof. intros Hkey k' it' [<- <-]%lookup_singleton_Some. done. Qed.

Lemma served_quiet w : faults w = [] → served w.
Proof. unfold served. by intros ->. Qed.

Lemma never_throttled_quiet w : faults w = [] → never_throttled w.
Proof. unfold never_throttled. intros ->. constructor. Qed.

(** ** What the operations leave in place *)

Module InvariantFacts.

Section Keeps.
Context (J : gmap (list string) Item → Prop).

Lemma keeps_ret {A} (a : A) : keeps_table J (ret a).
Proof. by intros w. Qed.
Lemma keeps_raise {A} e : keeps_table J (@raise A e).
Proof. by intros w. Qed.
Lemma keeps_gets {A} (f : World → A) : keeps_table J (gets f).
Proof. by intros w. Qed.
Lemma keeps_request r : keeps_table J (request r).
Proof. intros w. unfold request. by destruct (faults w) as [|[] fs]. Qed.
Lemma keeps_increment name : keeps_table J (increment name).
Proof. by intros w. Qed.
Lemma keeps_alloc it : keeps_table J (alloc it).
Proof. by intros w. Qed.
Lemma keeps_modify_heap f : keeps_table J (modify (set_heap f)).
Proof. by intros w. Qed.
Lemma keeps_modify_table f :
  (∀ t, J t → J (f t)) → keeps_table J (modify (set_table f)).
Proof. intros Hf w. apply Hf. Qed.

Lemma keeps_bind {A B} (m : M A) (k : A → M B) :
  keeps_table J m → (∀ a, keeps_table J (k a)) → keeps_table J (bind m k).
Proof.
  intros Hm Hk w Hw. unfold bind. specialize (Hm w Hw).
  destruct (m w) as [[a|e] w1]; [by apply Hk | done].
Qed.

Lemma keeps_try {A} (m : M A) handles (h : Exn → M A) :
  keeps_table J m → (∀ e, keeps_table J (h e)) → keeps_table J (try_except m handles h).
Proof.
  intros Hm Hh w Hw. unfold try_except. specialize (Hm w Hw).
  destruct (m w) as [[a|e] w1]; [done |].
  destruct (handles e); [by apply Hh | done].
Qed.

Lemma keeps_track {A} name (m : M A) :
  keeps_table J m → keeps_table J (track_provisioned name m).
Proof.
  intros Hm. apply keeps_try; [done |]. intros e.
  apply keeps_bind; [apply keeps_increment | intros _; apply keeps_raise].
Qed.

Lemma keeps_conn_put_item schema item guard vals :
  (∀ k t, item_key schema item = Some k → J t → J (<[k := item]> t)) →
  keeps_table J (conn_put_item schema item guard vals).
Proof.
  intros Hins. unfold conn_put_item.
  apply keeps_bind; [apply keeps_request | intros _].
  destruct (item_key schema item) as [k|] eqn:Hk; [| apply keeps_raise].
  apply keeps_bind; [apply keeps_gets | intros old].
  apply keeps_bind.
  - unfold check_guard. repeat case_match; apply keeps_raise || apply keeps_ret.
  - intros _. apply keeps_modify_table. intros t. by apply Hins.
Qed.

Lemma keeps_table_delete_item key guard :
  (∀ k t, J t → J (delete k t)) →
  keeps_table J (table_delete_item key guard).
Proof.
  intros Hdel. unfold table_delete_item, with_key.
  apply keeps_bind; [apply keeps_request | intros _].
  case_match; [| apply keeps_raise].
  apply keeps_bind; [apply keeps_gets | intros old].
  apply keeps_try; [| intros; apply keeps_ret].
  apply keeps_bind.
  - unfold check_guard. repeat case_match; apply keeps_raise || apply keeps_ret.
  - intros _. apply keeps_bind; [| intros; apply keeps_ret].
    apply keeps_modify_table. intros t. apply Hdel.
Qed.

Lemma keeps_table_get_item key : keeps_table J (table_get_item key).
Proof.
  unfold table_get_item, with_key.
  apply keeps_bind; [apply keeps_request | intros _].
  case_match; [| apply keeps_raise].
  apply keeps_bind; [apply keeps_gets | intros old].
  case_match; apply keeps_raise || apply keeps_ret.
Qed.

Lemma keeps_table_query_2 hash rc limit attrs :
  keeps_table J (table_query_2 hash rc limit attrs).
Proof.
  unfold table_query_2.
  apply keeps_bind; [apply keeps_request | intros _; apply keeps_gets].
Qed.

Lemma keeps_batch_write deletes :
  (∀ k t, J t → J (delete k t)) → keeps_table J (batch_write deletes).
Proof.
  intros Hdel. unfold batch_write. destruct deletes as [|d ds]; [apply keeps_ret |].
  apply keeps_bind; [apply keeps_request | intros _].
  destruct (mapM (mapM as_string) (d :: ds)) as [keys|]; [| apply keeps_raise].
  apply keeps_modify_table. intros t Ht.
  induction keys as [|k ks IH]; simpl; [done | apply Hdel, IH].
Qed.

(** An update keeps the invariant when writing its result under the key
    does. The stored item is read in the same request. *)
Lemma keeps_conn_update_item schema key upd guard vals rv :
  (∀ k t new, mapM as_string key = Some k → J t →
     apply_update vals (default (key_attrs schema k) (t !! k)) upd = Some new →
     J (<[k := new]> t)) →
  keeps_table J (conn_update_item schema key upd guard vals rv).
Proof.
  intros Hupd w Hw. unfold conn_update_item, bind, request, with_key, stored, gets,
    check_guard, raise, ret, modify.
  destruct (mapM as_string key) as [k|] eqn:Hk.
  - destruct (faults w) as [|[] fs]; cbn [fst snd table]; try done.
    + destruct (eval_guard _ _ _) as [[]|]; cbn [fst snd table]; try done.
      destruct (apply_update _ _ _) eqn:Hnew; cbn [fst snd table set_table]; try done.
      by apply (Hupd k).
    + destruct (eval_guard _ _ _) as [[]|]; cbn [fst snd table]; try done.
      destruct (apply_update _ _ _) eqn:Hnew; cbn [fst snd table set_table]; try done.
      by apply (Hupd k).
  - by destruct (faults w) as [|[] fs].
Qed.

End Keeps.

Lemma keyed_insert schema k item t :
  item_key schema item = Some k → keyed schema t → keyed schema (<[k := item]> t).
Proof.
  intros Hk Ht k' it. destruct (decide (k' = k)) as [-> | Hne].
  - rewrite lookup_insert_eq. by intros [= <-].
  - rewrite lookup_insert_ne by done. apply Ht.
Qed.

Lemma keyed_delete schema k t : keyed schema t → keyed schema (delete k t).
Proof.
  intros Ht k' it. destruct (decide (k' = k)) as [-> | Hne].
  - by rewrite lookup_delete_eq.
  - rewrite lookup_delete_ne by done. apply Ht.
Qed.

Lemma item_key_ext schema (it1 it2 : Item) :
  (∀ a, a ∈ schema → it1 !! a = it2 !! a) → item_key schema it1 = item_key schema it2.
Proof.
  unfold item_key. induction schema as [|a schema IH]; intros Hext; [done |].
  cbn [mapM]. rewrite (Hext a) by apply list_elem_of_here.
  rewrite IH; [done |]. intros b Hb. by apply Hext, list_elem_of_further.
Qed.

Lemma apply_action_untouched vals (it new : Item) u a :
  apply_action vals it u = Some new → a ≠ updated_attr u → new !! a = it !! a.
Proof.
  destruct u as [b p|b|b p|b p]; simpl; intros Hnew Hne.
  - destruct (vals !! p); simplify_eq/=. by rewrite lookup_insert_ne.
  - simplify_eq. by rewrite lookup_delete_ne.
  - destruct (vals !! p) as [[]|]; simplify_eq/=.
    destruct (it !! b) as [[]|]; simplify_eq/=; by rewrite lookup_insert_ne.
  - destruct (vals !! p) as [[]|]; simplify_eq/=.
    destruct (it !! b) as [[]|]; simplify_eq/=; [| done].
    case_decide; simplify_eq; [by rewrite lookup_delete_ne | by rewrite lookup_insert_ne].
Qed.

Lemma apply_update_untouched vals upd : ∀ (it new : Item) a,
  apply_update vals it upd = Some new → a ∉ updated_attr <$> upd → new !! a = it !! a.
Proof.
  induction upd as [|u upd IH]; intros it new a Hnew Ha; simpl in Hnew.
  - by simplify_eq.
  - rewrite fmap_cons, not_elem_of_cons in Ha. destruct Ha as [Hne Ha].
    destruct (apply_action vals it u) as [it'|] eqn:Hact; simplify_eq/=.
    rewrite (IH _ _ _ Hnew Ha). by apply (apply_action_untouched vals _ _ u).
Qed.

(** An update that names no key field leaves the item under its key. *)
Lemma keyed_update schema vals upd k new t :
  keyed schema t → item_key schema (key_attrs schema k) = Some k →
  Forall (λ a, a ∉ schema) (updated_attr <$> upd) →
  apply_update vals (default (key_attrs schema k) (t !! k)) upd = Some new →
  keyed schema (<[k := new]> t).
Proof.
  intros Ht Hfresh Hattrs Hnew. apply keyed_insert; [| done].
  rewrite (item_key_ext schema new (default (key_attrs schema k) (t !! k))).
  - destruct (t !! k) as [it|] eqn:Hit; [by apply Ht | done].
  - intros a Ha. apply (apply_update_untouched vals upd); [done |].
    intros Hin. rewrite Forall_forall in Hattrs. by apply (Hattrs a).
Qed.

Lemma item_key_key_attrs_1 a u : item_key [a] (key_attrs [a] [u]) = Some [u].
Proof.
  unfold item_key, key_attrs. cbn [mapM zip zip_with fmap list_fmap list_to_map foldr].
  simpl. by rewrite lookup_insert_eq.
Qed.

Lemma item_key_key_attrs_2 a b u r :
  a ≠ b → item_key [a; b] (key_attrs [a; b] [u; r]) = Some [u; r].
Proof.
  intros Hne. unfold item_key, key_attrs. simpl.
  by rewrite lookup_insert_eq, lookup_insert_ne, lookup_insert_eq.
Qed.

Ltac keeps_step :=
  first
    [ apply keeps_table_get_item | apply keeps_table_query_2
    | apply keeps_table_delete_item; intros ? ?; apply keyed_delete
    | apply keeps_batch_write; intros ? ?; apply keyed_delete
    | apply keeps_conn_put_item; intros ? ? ? ?; by apply keyed_insert
    | apply keeps_track
    | apply keeps_ret | apply keeps_raise | apply keeps_gets | apply keeps_request
    | apply keeps_alloc | apply keeps_increment | apply keeps_modify_heap
    | apply keeps_bind; [| intros ?]
    | apply keeps_try; [| intros ?]
    | progress unfold table_put_item, deref, assign, dict_pop, item_del
    | progress cbv zeta
    | case_match ].

Ltac keeps := repeat keeps_step.

Ltac keeps_update :=
  apply keeps_conn_update_item;
  let k := fresh "k" in let Hk := fresh "Hk" in let Hnew := fresh "Hnew" in
  intros k ? ? Hk ? Hnew;
  simpl in Hk; unfold mret, option_ret in Hk; simplify_eq;
  eapply keyed_update; [eassumption | | | exact Hnew]; clear Hnew.

(** Whatever a [Storage] operation does and however it ends, every record of
    the table still sits under the key that its own [uaid] and [chid] spell. *)
Lemma storage_keeps_keyed :
  (∀ u, keeps_table (keyed Storage.storage_schema) (Storage.fetch_notifications u)) ∧
  (∀ u c v, keeps_table (keyed Storage.storage_schema) (Storage.save_notification u c v)) ∧
  (∀ u c v, keeps_table (keyed Storage.storage_schema) (Storage.delete_notification u c v)).
Proof.
  repeat split; intros.
  - unfold Storage.fetch_notifications. keeps.
  - unfold Storage.save_notification. keeps.
  - unfold Storage.delete_notification. keeps.
Qed.

Lemma storage_keeps_keyed_witness :
  keyed Storage.storage_schema (table notification_world) ∧
  keyed Storage.storage_schema
    (table (Storage.save_notification "u1" "c2" 4 notification_world).2) ∧
  keyed Storage.storage_schema
    (table (Storage.delete_notification "u1" "c1" (VNum 3) notification_world).2).
Proof.
  assert (Hkeyed : keyed Storage.storage_schema (table notification_world))
    by (apply keyed_singleton; reflexivity).
  destruct storage_keeps_keyed as (_ & Hsave & Hdelete).
  split; [exact Hkeyed |].
  split; [exact (Hsave "u1" "c2" 4%Z notification_world Hkeyed) |].
  exact (Hdelete "u1" "c1" (VNum 3) notification_world Hkeyed).
Defined.

Ltac not_key_fields :=
  simpl;
  repeat (apply List.Forall_cons;
          [ unfold Message.message_schema, Router.router_schema;
            rewrite !not_elem_of_cons; repeat split; try done; apply not_elem_of_nil |]);
  apply List.Forall_nil.

(** The same for the [Message] operations and the key attributes [uaid] and
    [chidmessageid]: no operation stores a record under a key other than its
    own, or strips a key attribute from a stored record. *)
Lemma message_keeps_keyed :
  (∀ u c, keeps_table (keyed Message.message_schema) (Message.register_channel u c)) ∧
  (∀ u c, keeps_table (keyed Message.message_schema) (Message.unregister_channel u c)) ∧
  (∀ u, keeps_table (keyed Message.message_schema) (Message.all_channels u)) ∧
  (∀ u cs, keeps_table (keyed Message.message_schema) (Message.save_channels u cs)) ∧
  (∀ u c m ttl d h t now id,
     keeps_table (keyed Message.message_schema)
       (Message.store_message u c m ttl d h t now id)) ∧
  (∀ u c m ttl d h t now id,
     keeps_table (keyed Message.message_schema)
       (Message.update_message u c m ttl d h t now id)) ∧
  (∀ u c m id, keeps_table (keyed Message.message_schema) (Message.delete_message u c m id)) ∧
  (∀ u ks, keeps_table (keyed Message.message_schema) (Message.delete_messages u ks)) ∧
  (∀ u c, keeps_table (keyed Message.message_schema)
            (Message.delete_messages_for_channel u c)) ∧
  (∀ u, keeps_table (keyed Message.message_schema) (Message.delete_user u)) ∧
  (∀ u n, keeps_table (keyed Message.message_schema) (Message.fetch_messages u n)).
Proof.
  repeat split; intros.
  - unfold Message.register_channel. apply keeps_track.
    apply keeps_bind; [| intros; apply keeps_ret].
    keeps_update; [by apply item_key_key_attrs_2 | not_key_fields].
  - unfold Message.unregister_channel. apply keeps_track.
    apply keeps_bind; [| intros; keeps].
    keeps_update; [by apply item_key_key_attrs_2 | not_key_fields].
  - unfold Message.all_channels. keeps.
  - unfold Message.save_channels. keeps.
  - unfold Message.store_message. keeps.
  - unfold Message.update_message. apply keeps_track. cbv zeta.
    apply keeps_bind; [| intros; apply keeps_ret].
    apply keeps_try; [| intros; apply keeps_ret].
    apply keeps_bind; [| intros; apply keeps_ret].
    keeps_update; [by apply item_key_key_attrs_2 |].
    destruct (truthy d); not_key_fields.
  - unfold Message.delete_message. keeps.
  - unfold Message.delete_messages. keeps.
  - unfold Message.delete_messages_for_channel, Message.delete_messages. keeps.
  - unfold Message.delete_user, Message.delete_messages. keeps.
  - unfold Message.fetch_messages. keeps.
Qed.

Lemma message_keeps_keyed_witness :
  keyed Message.message_schema (table message_world) ∧
  keyed Message.message_schema
    (table (Message.update_message "u1" "c1" "m1" 120 VNone VNone VNone 2000 "abcd"
              message_world).2) ∧
  keyed Message.message_schema (table (Message.delete_user "u1" message_world).2).
Proof.
  assert (Hkeyed : keyed Message.message_schema (table message_world))
    by (apply keyed_singleton; reflexivity).
  destruct message_keeps_keyed as (_ & _ & _ & _ & _ & Hupdate & _ & _ & _ & Hdelete & _).
  split; [exact Hkeyed |].
  split; [exact (Hupdate "u1" "c1" "m1" 120%Z VNone VNone VNone 2000%Z "abcd" message_world Hkeyed) |].
  exact (Hdelete "u1" message_world Hkeyed).
Defined.

Lemma dict_pop_cases r k w :
  dict_pop r k w = (Raise (KeyError k), w) ∨
  ∃ v, dict_pop r k w =
         (Return v, set_heap (<[r := delete k (default ∅ (heap w !! r))]>) w).
Proof.
  unfold dict_pop, bind, deref, gets.
  case_match; [right; by eexists | by left].
Qed.

(** The same for the [Router] operations and the key attribute [uaid]. *)
Lemma router_keeps_keyed :
  (∀ u, keeps_table (keyed Router.router_schema) (Router.get_uaid u)) ∧
  (∀ d, keeps_table (keyed Router.router_schema) (Router.register_user d)) ∧
  (∀ u, keeps_table (keyed Router.router_schema) (Router.drop_user u)) ∧
  (∀ u m, keeps_table (keyed Router.router_schema) (Router.update_message_month u m)) ∧
  (∀ i, keeps_table (keyed Router.router_schema) (Router.clear_node i)).
Proof.
  repeat split; intros.
  - unfold Router.get_uaid. keeps.
  - unfold Router.register_user. apply keeps_track.
    intros w Hw. unfold bind at 1.
    destruct (dict_pop_cases d "uaid" w) as [-> | (v & ->)]; [done |].
    set (d' := delete "uaid" (default ∅ (heap w !! d))).
    set (w1 := set_heap (<[d := d']>) w).
    unfold bind at 1. rewrite (deref_run d d' w1) by apply lookup_insert_eq.
    match goal with |- context [try_except ?m ?hd ?h w1] =>
      assert (Hkeeps : keeps_table (keyed Router.router_schema) (try_except m hd h))
    end.
    { apply keeps_try; [| intros; apply keeps_ret].
      apply keeps_bind; [| intros; apply keeps_ret].
      apply keeps_conn_update_item. intros k t new Hk Ht Hnew.
      assert (∃ u, k = [u]) as [u ->].
      { simpl in Hk. destruct (as_string v); unfold mret, option_ret in Hk; simplify_eq/=. eauto. }
      eapply keyed_update; [eassumption | apply item_key_key_attrs_1 | | exact Hnew].
      clear Hnew. rewrite <- !list_fmap_compose. apply Forall_fmap, Forall_forall.
      intros [a x] Ha%elem_of_map_to_list. simpl. unfold Router.router_schema.
      rewrite not_elem_of_cons. split; [| apply not_elem_of_nil].
      intros ->. unfold d' in Ha. by rewrite lookup_delete_eq in Ha. }
    by apply (Hkeeps w1).
  - unfold Router.drop_user. keeps.
  - unfold Router.update_message_month. apply keeps_track.
    apply keeps_bind; [| intros; apply keeps_ret].
    keeps_update; [apply item_key_key_attrs_1 | not_key_fields].
  - unfold Router.clear_node. keeps.
Qed.

Lemma router_keeps_keyed_witness :
  keyed Router.router_schema (table callers_world) ∧
  keyed Router.router_schema (table (Router.register_user 1 callers_world).2) ∧
  keyed Router.router_schema (table (Router.clear_node 0 callers_world).2).
Proof.
  assert (Hkeyed : keyed Router.router_schema (table callers_world))
    by (apply keyed_singleton; reflexivity).
  destruct router_keeps_keyed as (_ & Hregister & _ & _ & Hclear).
  split; [exact Hkeyed |].
  split; [exact (Hregister 1%nat callers_world Hkeyed) |].
  exact (Hclear 0%nat callers_world Hkeyed).
Defined.

End InvariantFacts.

(** ** Queries *)

Module QueryFacts.

Lemma elem_of_hits (t : gmap (list string) Item) hash rc (kv : list string * Item) :
  kv ∈ List.filter
         (λ kv : list string * Item,
            match kv.1 with
            | [h; r] => String.eqb h hash && range_matches rc r
            | _ => false
            end) (map_to_list t)
  ↔ ∃ r, kv.1 = [hash; r] ∧ t !! [hash; r] = Some kv.2 ∧ range_matches rc r = true.
Proof.
  rewrite list_elem_of_In, filter_In, <- list_elem_of_In.
  destruct kv as [k it]. rewrite elem_of_map_to_list. simpl. split.
  - intros [Hk Hpred]. destruct k as [|h [|r [|]]]; try done.
    apply andb_true_iff in Hpred as [->%String.eqb_eq Hr]. eauto.
  - intros (r & -> & Hk & Hr). split; [done |]. by rewrite String.eqb_refl.
Qed.

Lemma elem_of_query_result t hash rc attrs (x : Item) :
  x ∈ query_result t hash rc None attrs ↔
  ∃ r it, t !! [hash; r] = Some it ∧ range_matches rc r = true ∧ x = project attrs it.
Proof.
  unfold query_result. rewrite list_elem_of_fmap. split.
  - intros ([k it] & -> & Hin). rewrite merge_sort_Permutation in Hin.
    apply elem_of_hits in Hin as (r & Hk & Hit & Hr). simpl in *. subst k.
    exists r, it. by destruct attrs.
  - intros (r & it & Hit & Hr & ->). exists ([hash; r], it). split; [by destruct attrs |].
    rewrite merge_sort_Permutation. apply elem_of_hits. exists r. done.
Qed.


Lemma table_query_2_served hash rc limit attrs w :
  served w →
  table_query_2 hash rc limit attrs w =
    (Return (query_result (table w) hash rc limit attrs),
     after_request (Query hash rc limit attrs) false w).
Proof. intros Hserved. unfold table_query_2, bind. by rewrite request_served. Qed.

End QueryFacts.

(** ** The router table, operation by operation *)

Module RouterMore.
Import Router RouterFacts.

Lemma register_user_run w data (d : Item) u rt ca :
  heap w !! data = Some d →
  d !! "uaid" = Some (VStr u) → d !! "router_type" = Some rt →
  d !! "connected_at" = Some (VNum ca) → served w →
  ∃ (ok : bool) w',
    register_user data w =
      (Return (ok, (if ok then default ∅ (table w !! [u]) else ∅) : Item), w') ∧
    (ok = true ↔ may_register (table w !! [u]) rt ca) ∧
    table w' = (if ok
                then <[ [u] := delete "uaid" d ∪ default {[ "uaid" := VStr u ]} (table w !! [u]) ]>
                       (table w)
                else table w) ∧
    heap w' = <[ data := delete "uaid" d ]> (heap w) ∧
    faults w' = tail (faults w) ∧ metrics w' = metrics w.
Proof.
  intros Hdata Huaid Hrt Hca Hserved.
  set (d' := delete "uaid" d).
  set (w1 := set_heap (<[data := d']>) w).
  assert (Hd' : heap w1 !! data = Some d') by apply lookup_insert_eq.
  destruct (eval_register_cond d' (default ∅ (table w1 !! [u])) rt ca) as (ok & Hguard & Hok).
  { unfold d'. by rewrite lookup_delete_ne. }
  { unfold d'. by rewrite lookup_delete_ne. }
  assert (Hok' : ok = true ↔ may_register (table w !! [u]) rt ca).
  { rewrite Hok. unfold may_register. simpl. done. }
  unfold register_user, track_provisioned, try_except, bind.
  rewrite (dict_pop_run _ _ _ _ _ Hdata Huaid). fold d' w1.
  rewrite (deref_run _ _ _ Hd').
  change [VStr u] with (VStr <$> [u]).
  rewrite (conn_update_item_served _ [u] _ _ _ _ ok) by done.
  cbv zeta. rewrite apply_update_all.
  exists ok. destruct ok; eexists; (split; [reflexivity |]); (split; [done |]).
  - split; [| done]. cbn [table set_table after_request w1 set_heap].
    unfold key_attrs, router_schema. simpl. by rewrite insert_empty.
  - done.
Qed.

(** [clear_node] answers [True] exactly when the stored [node_id] and
    [connected_at] are those of the item the caller holds; in every other
    served run it answers [False] and the table is as it was. *)
Theorem clear_node_guarded w item (it : Item) u :
  heap w !! item = Some it → it !! "uaid" = Some (VStr u) → served w →
  let st := default ∅ (table w !! [u]) in
  ((clear_node item w).1 = Return true ↔
     st !! "node_id" = Some (item_get it "node_id") ∧
     st !! "connected_at" = Some (item_get it "connected_at")) ∧
  ((clear_node item w).1 ≠ Return true →
     (clear_node item w).1 = Return false ∧ table (clear_node item w).2 = table w).
Proof.
  intros Hitem Huaid Hserved st.
  destruct (clear_node_run w item it u Hitem Huaid Hserved) as (w' & Hrun & Htable & _).
  fold st in Hrun, Htable. rewrite Hrun. cbn [fst snd].
  set (matches := bool_decide _ && bool_decide _) in *.
  assert (Hiff : matches = true ↔
            st !! "node_id" = Some (item_get it "node_id") ∧
            st !! "connected_at" = Some (item_get it "connected_at")).
  { unfold matches. by rewrite andb_true_iff, !bool_decide_eq_true. }
  split.
  - rewrite <- Hiff. split; [by intros [= ->] | by intros ->].
  - intros Hnot. destruct matches; [done |]. done.
Qed.

Lemma clear_node_guarded_witness :
  ((clear_node 0 user_world).1 = Return true ↔
     user_record !! "node_id" = Some (item_get user_record "node_id") ∧
     user_record !! "connected_at" = Some (item_get user_record "connected_at")) ∧
  ((clear_node 0 user_world).1 ≠ Return true →
     (clear_node 0 user_world).1 = Return false ∧
     table (clear_node 0 user_world).2 = table user_world).
Proof.
  exact (clear_node_guarded user_world 0%nat user_record "u1" eq_refl eq_refl
           (served_quiet user_world eq_refl)).
Defined.



Lemma get_uaid_run u w :
  served w →
  get_uaid u w =
    match table w !! [u] with
    | Some it =>
        (Return (fresh (dom (heap w))),
         set_heap (<[fresh (dom (heap w)) := it]>) (after_request (GetItem [VStr u]) false w))
    | None => (Raise ItemNotFound, after_request (GetItem [VStr u]) false w)
    end.
Proof.
  intros Hserved. unfold get_uaid, try_except, bind.
  change [VStr u] with (VStr <$> [u]). rewrite table_get_item_served by done.
  by destruct (table w !! [u]).
Qed.

(** [get_uaid] raises [ItemNotFound] when no record is stored for the user,
    and otherwise hands out a new object that holds the stored record; it
    writes neither to the table nor to the counters. *)
Theorem get_uaid_reads u w :
  served w →
  match table w !! [u] with
  | None =>
      (get_uaid u w).1 = Raise ItemNotFound ∧ heap (get_uaid u w).2 = heap w
  | Some it =>
      ∃ r, (get_uaid u w).1 = Return r ∧ heap w !! r = None ∧
           heap (get_uaid u w).2 = <[r := it]> (heap w)
  end ∧
  table (get_uaid u w).2 = table w ∧ metrics (get_uaid u w).2 = metrics w.
Proof.
  intros Hserved. rewrite (get_uaid_run u w Hserved).
  destruct (table w !! [u]) as [it|]; [| done].
  split; [| done]. exists (fresh (dom (heap w))). split; [done |]. split; [| done].
  apply not_elem_of_dom, is_fresh.
Qed.

Lemma get_uaid_reads_witness :
  (∃ r, (get_uaid "u1" user_world).1 = Return r ∧ heap user_world !! r = None ∧
        heap (get_uaid "u1" user_world).2 = <[r := user_record]> (heap user_world)) ∧
  table (get_uaid "u1" user_world).2 = table user_world ∧
  metrics (get_uaid "u1" user_world).2 = metrics user_world.
Proof. exact (get_uaid_reads "u1" user_world (served_quiet user_world eq_refl)). Defined.



Lemma item_key_router_inv (it : Item) u :
  item_key router_schema it = Some [u] ↔ it !! "uaid" = Some (VStr u).
Proof.
  unfold item_key, router_schema. cbn [mapM].
  destruct (it !! "uaid") as [[s| | | |]|]; cbn; unfold mret, option_ret;
    split; intros H; by simplify_eq.
Qed.

(** [drop_user] answers whether a record was stored for the user; after it
    none is. *)
Theorem drop_user_reports_deletion u w :
  keyed router_schema (table w) → served w →
  (drop_user u w).1 = Return (bool_decide (is_Some (table w !! [u]))) ∧
  table (drop_user u w).2 = delete [u] (table w) ∧
  metrics (drop_user u w).2 = metrics w.
Proof.
  intros Hkeyed Hserved.
  set (holds := bool_decide (default ∅ (table w !! [u]) !! "uaid" = Some (VStr u))).
  assert (Hguard : eval_guard ∅ (default ∅ (table w !! [u]))
                     [CEq (OAttr "uaid") (OLit (VStr u))] = Some holds).
  { cbn [eval_guard eval_cond eval_operand]. simpl.
    by rewrite compare_eq_decide, andb_true_r. }
  unfold drop_user, track_provisioned, try_except.
  change [VStr u] with (VStr <$> [u]).
  rewrite (table_delete_item_served [u] _ holds w Hserved Hguard). cbv zeta.
  assert (Hholds : holds = bool_decide (is_Some (table w !! [u]))).
  { unfold holds. destruct (table w !! [u]) as [it|] eqn:Hit; simpl.
    - apply Hkeyed, item_key_router_inv in Hit.
      rewrite !bool_decide_eq_true_2; eauto.
    - rewrite lookup_empty. by rewrite bool_decide_eq_false_2. }
  rewrite Hholds. clear Hholds Hguard holds.
  destruct (table w !! [u]) as [it|] eqn:Hit.
  - rewrite bool_decide_eq_true_2 by eauto. done.
  - rewrite bool_decide_eq_false_2 by (by intros [? ?]).
    cbn [fst snd table set_table after_request metrics]. by rewrite delete_id.
Qed.

Lemma drop_user_reports_deletion_witness :
  (drop_user "u1" user_world).1 = Return true ∧
  table (drop_user "u1" user_world).2 = delete ["u1"] (table user_world) ∧
  metrics (drop_user "u1" user_world).2 = metrics user_world.
Proof.
  exact (drop_user_reports_deletion "u1" user_world
           (keyed_singleton router_schema ["u1"] user_record eq_refl)
           (served_quiet user_world eq_refl)).
Defined.

(** [update_message_month] sets [current_month] and nothing else on the
    user's record, and creates the record when the user is not stored: it
    carries no condition. *)
Theorem update_message_month_upserts u month w :
  served w →
  (update_message_month u month w).1 = Return true ∧
  table (update_message_month u month w).2 =
    <[ [u] := <["current_month" := month]>
                (default {[ "uaid" := VStr u ]} (table w !! [u])) ]> (table w).
Proof.
  intros Hserved. unfold update_message_month, track_provisioned, try_except, bind.
  change [VStr u] with (VStr <$> [u]).
  rewrite (conn_update_item_served _ [u] _ _ _ _ true) by done.
  cbv zeta. cbn [apply_update apply_action]. rewrite lookup_singleton_eq.
  cbn [mbind option_bind]. split; [reflexivity |].
  cbn [fst snd table set_table after_request].
  unfold key_attrs, router_schema. simpl. by rewrite insert_empty.
Qed.

Lemma update_message_month_upserts_witness :
  (update_message_month "u2" (VStr "message_2024_4") user_world).1 = Return true ∧
  table (update_message_month "u2" (VStr "message_2024_4") user_world).2 =
    <[ ["u2"] := {[ "uaid" := VStr "u2"; "current_month" := VStr "message_2024_4" ]} ]>
      (table user_world).
Proof.
  destruct (update_message_month_upserts "u2" (VStr "message_2024_4") user_world
              (served_quiet user_world eq_refl)) as [Hrun Htable].
  split; [exact Hrun |]. rewrite Htable. vm_compute; reflexivity.
Defined.

(** A dict without ["uaid"] makes [register_user] raise [KeyError] before
    anything is sent or changed. *)
Theorem register_user_without_uaid w data (d : Item) :
  heap w !! data = Some d → d !! "uaid" = None →
  register_user data w = (Raise (KeyError "uaid"), w).
Proof.
  intros Hdata Hnone. unfold register_user, track_provisioned, try_except, bind, dict_pop, bind.
  by rewrite (deref_run _ _ _ Hdata), Hnone.
Qed.

Lemma register_user_without_uaid_witness :
  register_user 2 callers_world = (Raise (KeyError "uaid"), callers_world).
Proof.
  exact (register_user_without_uaid callers_world 2%nat (delete "uaid" user_record)
           eq_refl eq_refl).
Defined.

Lemma conn_update_item_rejected schema key upd guard vals rv w :
  served w →
  eval_guard vals (default ∅ (table w !! key)) guard = None →
  conn_update_item schema (VStr <$> key) upd guard vals rv w =
    (Raise ValidationException,
     after_request (UpdateItem (VStr <$> key) upd guard vals rv) false w).
Proof.
  intros Hserved Hguard. unfold conn_update_item, bind.
  rewrite request_served by done. unfold with_key. rewrite mapM_as_string.
  unfold stored, gets, check_guard. cbn [table after_request].
  by rewrite Hguard.
Qed.

(** A dict without ["router_type"] or without ["connected_at"] is turned
    down by DynamoDB, whose condition names a value that was not given:
    [register_user] raises, and neither the table nor a counter changes. *)
Theorem register_user_undefined_placeholder w data (d : Item) u :
  heap w !! data = Some d → d !! "uaid" = Some (VStr u) →
  d !! "router_type" = None ∨ d !! "connected_at" = None →
  served w →
  (register_user data w).1 = Raise ValidationException ∧
  table (register_user data w).2 = table w ∧
  metrics (register_user data w).2 = metrics w.
Proof.
  intros Hdata Hdu Hmissing Hserved.
  set (d' := delete "uaid" d).
  set (w1 := set_heap (<[data := d']>) w).
  assert (Hd' : heap w1 !! data = Some d') by apply lookup_insert_eq.
  assert (Hguard : ∀ st, eval_guard (placeholders d') st [register_cond] = None).
  { intros st. unfold register_cond. cbn [eval_guard eval_cond eval_operand].
    change ":router_type" with (":" +:+ "router_type").
    change ":connected_at" with (":" +:+ "connected_at").
    rewrite !lookup_placeholders. unfold d'. rewrite !lookup_delete_ne by done.
    destruct Hmissing as [-> | ->]; simpl; [done |].
    by destruct (d !! "router_type"). }
  unfold register_user, track_provisioned, try_except, bind.
  rewrite (dict_pop_run _ _ _ _ _ Hdata Hdu). fold d' w1.
  rewrite (deref_run _ _ _ Hd').
  change [VStr u] with (VStr <$> [u]).
  by rewrite (conn_update_item_rejected _ [u]) by (done || apply Hguard).
Qed.

Lemma register_user_undefined_placeholder_witness :
  (register_user 3 callers_world).1 = Raise ValidationException ∧
  table (register_user 3 callers_world).2 = table callers_world ∧
  metrics (register_user 3 callers_world).2 = metrics callers_world.
Proof.
  exact (register_user_undefined_placeholder callers_world 3%nat
           {[ "uaid" := VStr "u1"; "node_id" := VStr "n2" ]} "u1" eq_refl eq_refl
           (or_introl eq_refl) (served_quiet callers_world eq_refl)).
Defined.

End RouterMore.

(** ** The storage table, operation by operation *)

Module StorageMore.
Import Storage StorageFacts QueryFacts.
Local Open Scope Z_scope.

(** [fetch_notifications] returns the user's records whose [chid] sorts
    after [" "], those and no others, and changes neither the table nor the
    counters. *)
Theorem fetch_notifications_lists u w :
  served w →
  ∃ notifs,
    (fetch_notifications u w).1 = Return notifs ∧
    (∀ x, x ∈ notifs ↔ ∃ c, table w !! [u; c] = Some x ∧ String.ltb " " c = true) ∧
    table (fetch_notifications u w).2 = table w ∧
    metrics (fetch_notifications u w).2 = metrics w.
Proof.
  intros Hserved. unfold fetch_notifications, track_provisioned, try_except.
  rewrite table_query_2_served by done. eexists. split; [reflexivity |].
  split; [| done]. intros x. rewrite elem_of_query_result. simpl.
  split; [intros (c & it & ? & ? & ->) | intros (c & ? & ?)]; eauto.
Qed.

Lemma fetch_notifications_lists_witness :
  ∃ notifs,
    (fetch_notifications "u1" notification_world).1 = Return notifs ∧
    (∀ x, x ∈ notifs ↔
          ∃ c, table notification_world !! ["u1"; c] = Some x ∧ String.ltb " " c = true) ∧
    table (fetch_notifications "u1" notification_world).2 = table notification_world ∧
    metrics (fetch_notifications "u1" notification_world).2 = metrics notification_world.
Proof.
  exact (fetch_notifications_lists "u1" notification_world
           (served_quiet notification_world eq_refl)).
Defined.



End StorageMore.

(** ** The channel registry *)

Module ChannelFacts.
Import Message MessageFacts.

Lemma register_channel_run u c old w :
  served w → stored_channels (table w) u = Some old →
  ∃ w', register_channel u c w = (Return true, w') ∧
        table w' = <[ [u; " "] := <["chids" := VSet (old ∪ {[c]})]>
                       (default (key_attrs message_schema [u; " "]) (table w !! [u; " "])) ]>
                     (table w) ∧
        faults w' = tail (faults w) ∧ metrics w' = metrics w.
Proof.
  intros Hserved Hold.
  unfold register_channel, track_provisioned, try_except, bind, registry_key.
  change [VStr u; VStr " "] with (VStr <$> [u; " "]).
  rewrite (conn_update_item_served _ [u; " "] _ _ _ _ true) by done.
  cbv zeta. cbn [apply_update apply_action]. rewrite lookup_singleton_eq.
  cbn [mbind option_bind].
  set (base := default (key_attrs message_schema [u; " "]) (table w !! [u; " "])).
  assert (Hbase : base !! "chids" = table w !! [u; " "] ≫= (.!! "chids")).
  { unfold base. destruct (table w !! [u; " "]); [done |]. by vm_compute. }
  unfold stored_channels in Hold. rewrite <- Hbase in Hold.
  destruct (base !! "chids") as [[| |s| |]|]; simplify_eq.
  - eexists. split; [reflexivity |]. done.
  - eexists. split; [reflexivity |]. split; [| done].
    cbn [table set_table after_request]. by rewrite (left_id_L ∅ (∪)).
Qed.

Lemma stored_channels_insert u (s : gset string) (it : Item) t :
  stored_channels (<[ [u; " "] := <["chids" := VSet s]> it ]> t) u = Some s.
Proof.
  unfold stored_channels. rewrite lookup_insert_eq. simpl. by rewrite lookup_insert_eq.
Qed.

(** Registering a channel twice is registering it once: the second call
    leaves the table as the first one left it, and [all_channels] then returns
    the former channels and the new one. *)
Theorem register_channel_idempotent u c old w :
  never_throttled w → stored_channels (table w) u = Some old →
  ∃ w1 w2 w3,
    register_channel u c w = (Return true, w1) ∧
    register_channel u c w1 = (Return true, w2) ∧
    table w2 = table w1 ∧
    all_channels u w2 = (Return (true, VSet (old ∪ {[c]})), w3).
Proof.
  intros Hcalm Hold.
  assert (Hserved : served w) by by apply StorageFacts.never_throttled_served.
  destruct (register_channel_run u c old w Hserved Hold) as (w1 & Hrun1 & Htable1 & Hf1 & _).
  assert (Hcalm1 : never_throttled w1) by by apply (StorageFacts.never_throttled_tail w).
  assert (Hold1 : stored_channels (table w1) u = Some (old ∪ {[c]})).
  { rewrite Htable1. apply stored_channels_insert. }
  destruct (register_channel_run u c (old ∪ {[c]}) w1
              (StorageFacts.never_throttled_served _ Hcalm1) Hold1)
    as (w2 & Hrun2 & Htable2 & Hf2 & _).
  assert (Hsame : table w2 = table w1).
  { rewrite Htable2. apply insert_id. rewrite Htable1, lookup_insert_eq. simpl.
    f_equal. rewrite insert_insert_eq. do 2 f_equal.
    by rewrite <- (assoc_L (∪)), (idemp_L (∪)). }
  assert (Hcalm2 : never_throttled w2) by by apply (StorageFacts.never_throttled_tail w1).
  destruct (all_channels_run u w2 (StorageFacts.never_throttled_served _ Hcalm2))
    as (w3 & Hall & _).
  exists w1, w2, w3. split; [done |]. split; [done |]. split; [done |].
  rewrite Hall, Hsame, Htable1, lookup_insert_eq. do 3 f_equal.
  unfold item_get. rewrite lookup_insert_eq. simpl. unfold py_or. simpl.
  rewrite bool_decide_eq_false_2; [done |]. set_solver.
Qed.

Lemma register_channel_idempotent_witness :
  ∃ w1 w2 w3,
    register_channel "u1" "c1" registry_world = (Return true, w1) ∧
    register_channel "u1" "c1" w1 = (Return true, w2) ∧
    table w2 = table w1 ∧
    all_channels "u1" w2 = (Return (true, VSet (∅ ∪ {[ "c1" ]})), w3).
Proof.
  exact (register_channel_idempotent "u1" "c1" ∅ registry_world
           (never_throttled_quiet registry_world eq_refl) eq_refl).
Defined.

Lemma returned_updated_old (it : Item) a p :
  default ∅ (returned UPDATED_OLD [UDelete a p] (Some it)) !! a = it !! a.
Proof.
  unfold returned. simpl. case_decide as Hempty; simpl.
  - rewrite lookup_empty. symmetry. apply eq_None_not_Some. intros [v Hv].
    assert (filter (λ kv : string * Value, kv.1 ∈ [a]) it !! a = Some v) as Hin.
    { apply map_lookup_filter_Some. split; [done |]. simpl. apply list_elem_of_here. }
    by rewrite Hempty in Hin.
  - destruct (it !! a) as [v|] eqn:Hv.
    + apply map_lookup_filter_Some. split; [done |]. simpl. apply list_elem_of_here.
    + apply map_lookup_filter_None. by left.
Qed.

(** [unregister_channel] answers whether the channel was registered, and
    [all_channels] then returns the other channels. *)
Theorem unregister_channel_reports u c (it : Item) old w :
  never_throttled w →
  table w !! [u; " "] = Some it → it !! "chids" = Some (VSet old) →
  ∃ w1 w2,
    unregister_channel u c w = (Return (bool_decide (c ∈ old)), w1) ∧
    stored_channels (table w1) u = Some (old ∖ {[c]}) ∧
    all_channels u w1 = (Return (true, VSet (old ∖ {[c]})), w2).
Proof.
  intros Hcalm Hit Hold.
  assert (Hserved : served w) by by apply StorageFacts.never_throttled_served.
  unfold unregister_channel, track_provisioned, try_except, bind, registry_key.
  change [VStr u; VStr " "] with (VStr <$> [u; " "]).
  rewrite (conn_update_item_served _ [u; " "] _ _ _ _ true) by done.
  cbv zeta. cbn [apply_update apply_action]. rewrite lookup_singleton_eq, Hit.
  cbn [mbind option_bind default from_option id]. rewrite Hold.
  set (new := if decide (old ∖ {[c]} = ∅) then delete "chids" it
              else <["chids" := VSet (old ∖ {[c]})]> it).
  assert (Hstep : (if decide (old ∖ {[c]} = ∅) then Some (delete "chids" it)
                   else Some (<["chids" := VSet (old ∖ {[c]})]> it)) = Some new).
  { unfold new. by case_decide. }
  rewrite Hstep. cbn [mbind option_bind].
  pose proof (returned_updated_old it "chids" ":channel_id") as Hret.
  rewrite Hold in Hret. rewrite Hret. cbn [channel_in ret].
  set (w1 := set_table _ _).
  assert (Hcalm1 : never_throttled w1) by by apply (StorageFacts.never_throttled_tail w).
  destruct (all_channels_run u w1 (StorageFacts.never_throttled_served _ Hcalm1))
    as (w2 & Hall & _).
  assert (Hnew : table w1 !! [u; " "] = Some new) by apply lookup_insert_eq.
  exists w1, w2. split; [done |]. split.
  - unfold stored_channels. rewrite Hnew. simpl. unfold new.
    case_decide as Hempty; [by rewrite lookup_delete_eq, Hempty | by rewrite lookup_insert_eq].
  - rewrite Hall, Hnew. do 3 f_equal. unfold item_get, new, py_or.
    case_decide as Hempty.
    + by rewrite lookup_delete_eq, Hempty.
    + rewrite lookup_insert_eq. simpl. by rewrite bool_decide_eq_false_2.
Qed.

Lemma unregister_channel_reports_witness :
  ∃ w1 w2,
    unregister_channel "u1" "c1" channels_world
      = (Return (bool_decide ("c1" ∈ ({[ "c1"; "c2" ]} : gset string))), w1) ∧
    stored_channels (table w1) "u1" = Some ({[ "c1"; "c2" ]} ∖ {[ "c1" ]}) ∧
    all_channels "u1" w1 = (Return (true, VSet ({[ "c1"; "c2" ]} ∖ {[ "c1" ]})), w2).
Proof.
  exact (unregister_channel_reports "u1" "c1"
           {[ "uaid" := VStr "u1"; "chidmessageid" := VStr " ";
              "chids" := VSet {[ "c1"; "c2" ]} ]}
           {[ "c1"; "c2" ]} channels_world
           (never_throttled_quiet channels_world eq_refl) eq_refl eq_refl).
Defined.

(** With no registry, or one without [chids], [unregister_channel] answers
    [False]. *)
Theorem unregister_channel_without_channels u c w :
  served w → table w !! [u; " "] ≫= (.!! "chids") = None →
  (unregister_channel u c w).1 = Return false.
Proof.
  intros Hserved Hnone.
  unfold unregister_channel, track_provisioned, try_except, bind, registry_key.
  change [VStr u; VStr " "] with (VStr <$> [u; " "]).
  rewrite (conn_update_item_served _ [u; " "] _ _ _ _ true) by done.
  cbv zeta. cbn [apply_update apply_action]. rewrite lookup_singleton_eq.
  cbn [mbind option_bind].
  set (base := default (key_attrs message_schema [u; " "]) (table w !! [u; " "])).
  assert (Hbase : base !! "chids" = None).
  { unfold base. destruct (table w !! [u; " "]); [done |]. by vm_compute. }
  rewrite Hbase. cbn [mbind option_bind].
  destruct (table w !! [u; " "]) as [it|] eqn:Hit; simpl in Hnone.
  - pose proof (returned_updated_old it "chids" ":channel_id") as Hret.
    rewrite Hnone in Hret. by rewrite Hret.
  - by cbn.
Qed.

Lemma unregister_channel_without_channels_witness :
  (unregister_channel "u1" "c1" registry_world).1 = Return false.
Proof.
  exact (unregister_channel_without_channels "u1" "c1" registry_world
           (served_quiet registry_world eq_refl) eq_refl).
Defined.

End ChannelFacts.

(** ** The message table, operation by operation *)

Module MessageMore.
Import Message MessageFacts QueryFacts.

Lemma eval_expects vals (st : Item) ks :
  eval_guard vals st (attribute_not_exists <$> ks)
    = Some (bool_decide (Forall (λ k, st !! k = None) ks)).
Proof.
  induction ks as [|k ks IH]; [done |].
  rewrite fmap_cons. cbn [eval_guard eval_cond]. rewrite IH. simpl. f_equal.
  destruct (decide (st !! k = None)) as [Hk | Hk],
    (decide (Forall (λ k, st !! k = None) ks)) as [Hks | Hks].
  - rewrite !bool_decide_eq_true_2; by try constructor.
  - rewrite (bool_decide_eq_false_2 _ Hks), andb_false_r. symmetry.
    apply bool_decide_eq_false_2. by intros [? ?]%Forall_cons.
  - rewrite (bool_decide_eq_false_2 _ Hk). symmetry.
    apply bool_decide_eq_false_2. by intros [? ?]%Forall_cons.
  - rewrite (bool_decide_eq_false_2 _ Hk). symmetry.
    apply bool_decide_eq_false_2. by intros [? ?]%Forall_cons.
Qed.


Lemma item_key_message (it : Item) u r :
  item_key message_schema it = Some [u; r] ↔
  it !! "uaid" = Some (VStr u) ∧ it !! "chidmessageid" = Some (VStr r).
Proof.
  unfold item_key, message_schema. cbn [mapM].
  destruct (it !! "uaid") as [[s| | | |]|], (it !! "chidmessageid") as [[s'| | | |]|];
    cbn; unfold mret, option_ret;
    (split; [intros H; simplify_eq; try done; by split | intros [H1 H2]; by simplify_eq]).
Qed.


Lemma storable_lookup (it : Item) k v :
  it !! k = Some v → is_storable v = true → storable it !! k = Some v.
Proof. intros Hk Hv. by apply map_lookup_filter_Some. Qed.

Lemma py_or_storable ts now : is_storable (py_or ts (VNum now)) = true.
Proof. unfold py_or. destruct (truthy ts) eqn:Hts; [| done]. by destruct ts. Qed.


























(** With an [updateid], [delete_message] deletes the stored message only if
    it carries that [updateid], and answers [True] either way. *)
Theorem delete_message_guarded u c m (updateid : Value) (it : Item) w :
  served w → truthy updateid = true →
  table w !! [u; chidmessageid c m] = Some it →
  (delete_message u c m updateid w).1 = Return true ∧
  table (delete_message u c m updateid w).2
    = (if decide (it !! "updateid" = Some updateid)
       then delete [u; chidmessageid c m] (table w) else table w).
Proof.
  intros Hserved Htruthy Hit.
  destruct (delete_message_served u c m updateid w Hserved) as (w' & Hrun & Htable & _).
  rewrite Hrun. split; [done |]. cbn [snd]. rewrite Htable, Htruthy, Hit.
  cbn [default from_option id]. by repeat (case_bool_decide || case_decide).
Qed.

Lemma delete_message_guarded_witness :
  (delete_message "u1" "c1" "m1" (VStr "0f0f") message_world).1 = Return true ∧
  table (delete_message "u1" "c1" "m1" (VStr "0f0f") message_world).2
    = delete ["u1"; chidmessageid "c1" "m1"] (table message_world).
Proof.
  exact (delete_message_guarded "u1" "c1" "m1" (VStr "0f0f") message_record message_world
           (served_quiet message_world eq_refl) eq_refl eq_refl).
Defined.

End MessageMore.

(** ** Months further away *)

Module CalendarMore.
Import Calendar CalendarFacts.
Local Open Scope Z_scope.

Lemma month_after_bounds y m :
  1 ≤ m ≤ 12 → 1 ≤ (month_after y m).2 ≤ 12 ∧ y ≤ (month_after y m).1 ≤ y + 1.
Proof. intros Hm. unfold month_after. destruct (Z.eqb_spec m 12); simpl; lia. Qed.

Lemma month_before_bounds y m :
  1 ≤ m ≤ 12 → 1 ≤ (month_before y m).2 ≤ 12 ∧ y - 1 ≤ (month_before y m).1 ≤ y.
Proof. intros Hm. unfold month_before. destruct (Z.eqb_spec m 1); simpl; lia. Qed.

Lemma months_after_grows n y m :
  1 ≤ m ≤ 12 → y ≤ (months_after n y m).1 ∧ 1 ≤ (months_after n y m).2 ≤ 12.
Proof.
  intros Hm. unfold months_after. induction n as [|n IH]; [simpl; lia |].
  rewrite Nat.iter_succ. destruct IH as [IHy IHm].
  destruct (Nat.iter n _ (y, m)) as [y' m']. simpl in *.
  pose proof (month_after_bounds y' m' IHm). lia.
Qed.

Lemma months_before_shrinks n y m :
  1 ≤ m ≤ 12 → (months_before n y m).1 ≤ y ∧ 1 ≤ (months_before n y m).2 ≤ 12.
Proof.
  intros Hm. unfold months_before. induction n as [|n IH]; [simpl; lia |].
  rewrite Nat.iter_succ. destruct IH as [IHy IHm].
  destruct (Nat.iter n _ (y, m)) as [y' m']. simpl in *.
  pose proof (month_before_bounds y' m' IHm). lia.
Qed.

(** The loop lands on a day of the month after. *)
Lemma while_forward_valid fuel delta y m d :
  0 ≤ delta → valid_date (Date y m d) → ¬ (y = MAXYEAR ∧ m = 12) →
  days_in_month y m < d + 14 * Z.of_nat fuel →
  ∃ d', while_same_month fuel delta m (Date y m d) =
          Done (Date (month_after y m).1 (month_after y m).2 d') ∧
        valid_date (Date (month_after y m).1 (month_after y m).2 d').
Proof.
  intros Hdelta Hvalid Hlast. revert d Hvalid.
  induction fuel as [|fuel IH]; intros d Hvalid Hfuel.
  - destruct Hvalid as (_ & _ & Hd). simpl in Hd. lia.
  - cbn [while_same_month month]. rewrite Z.eqb_refl.
    destruct (Z.ltb_spec delta 0) as [|_]; [lia |].
    rewrite date_add_14 by done.
    destruct (Z.leb_spec (d + 14) (days_in_month y m)) as [Hin | Hout].
    + apply IH; [| lia].
      destruct Hvalid as (Hy & Hm & Hd). repeat split; simpl in *; lia.
    + eexists. split; [apply while_left_month, month_after_other |].
      destruct Hvalid as (Hy & Hm & Hd). simpl in Hy, Hm, Hd.
      pose proof (month_after_bounds y m Hm) as [Hm' Hy'].
      pose proof (days_in_month_bounds (month_after y m).1 (month_after y m).2).
      assert ((month_after y m).1 ≤ MAXYEAR).
      { unfold month_after, MAXYEAR in *. destruct (Z.eqb_spec m 12); simpl; lia. }
      unfold valid_date, MINYEAR, MAXYEAR in *. simpl. lia.
Qed.

Lemma while_backward_valid fuel delta y m d :
  delta < 0 → valid_date (Date y m d) → ¬ (y = MINYEAR ∧ m = 1) →
  d ≤ 14 * Z.of_nat fuel →
  ∃ d', while_same_month fuel delta m (Date y m d) =
          Done (Date (month_before y m).1 (month_before y m).2 d') ∧
        valid_date (Date (month_before y m).1 (month_before y m).2 d').
Proof.
  intros Hdelta Hvalid Hfirst. revert d Hvalid.
  induction fuel as [|fuel IH]; intros d Hvalid Hfuel.
  - destruct Hvalid as (_ & _ & Hd). simpl in Hd. lia.
  - cbn [while_same_month month]. rewrite Z.eqb_refl.
    destruct (Z.ltb_spec delta 0) as [_|]; [| lia].
    rewrite date_sub_14 by done.
    destruct (Z.ltb_spec 14 d) as [Hin | Hout].
    + apply IH; [| lia].
      destruct Hvalid as (Hy & Hm & Hd). repeat split; simpl in *; lia.
    + eexists. split; [apply while_left_month, month_before_other |].
      destruct Hvalid as (Hy & Hm & Hd). simpl in Hy, Hm, Hd.
      pose proof (month_before_bounds y m Hm) as [Hm' Hy'].
      pose proof (days_in_month_bounds (month_before y m).1 (month_before y m).2).
      assert (MINYEAR ≤ (month_before y m).1).
      { unfold month_before, MINYEAR in *. destruct (Z.eqb_spec m 1); simpl; lia. }
      unfold valid_date, MINYEAR, MAXYEAR in *. simpl. lia.
Qed.

Lemma for_range_forward fuel delta n : ∀ d,
  0 ≤ delta → (3 ≤ fuel)%nat → valid_date d →
  (months_after n (year d) (month d)).1 ≤ MAXYEAR →
  ∃ d', for_range fuel n delta d d = Done d' ∧ valid_date d' ∧
        (year d', month d') = months_after n (year d) (month d).
Proof.
  induction n as [|n IH]; intros [y m d] Hdelta Hfuel Hvalid Hrange.
  - exists (Date y m d). done.
  - unfold months_after in Hrange. rewrite Nat.iter_succ_r in Hrange.
    cbn [year month fst snd] in Hrange.
    assert (Hm : 1 ≤ m ≤ 12) by (destruct Hvalid as (_ & Hm & _); done).
    pose proof (month_after_bounds y m Hm) as [Hm' Hy'].
    destruct (month_after y m) as [y1 m1] eqn:Hnext. cbn [fst snd] in *.
    pose proof (months_after_grows n y1 m1 Hm') as [Hgrow _].
    unfold months_after in Hgrow.
    destruct (while_forward_valid fuel delta y m d) as (d1 & Hrun & Hvalid1);
      [done | done | | |].
    { intros [-> ->]. unfold month_after in Hnext. simpl in Hnext. simplify_eq. lia. }
    { destruct Hvalid as (_ & _ & Hd). pose proof (days_in_month_bounds y m).
      simpl in Hd. lia. }
    rewrite Hnext in Hrun, Hvalid1. cbn [fst snd] in Hrun, Hvalid1.
    destruct (IH (Date y1 m1 d1) Hdelta Hfuel Hvalid1 Hrange) as (d' & Hrest & Hvalid' & Hym).
    exists d'. cbn [for_range month]. rewrite Hrun. split; [done |]. split; [done |].
    rewrite Hym. unfold months_after. rewrite Nat.iter_succ_r. cbn [year month fst snd].
    by rewrite Hnext.
Qed.

Lemma for_range_backward fuel delta n : ∀ d,
  delta < 0 → (3 ≤ fuel)%nat → valid_date d →
  MINYEAR ≤ (months_before n (year d) (month d)).1 →
  ∃ d', for_range fuel n delta d d = Done d' ∧ valid_date d' ∧
        (year d', month d') = months_before n (year d) (month d).
Proof.
  induction n as [|n IH]; intros [y m d] Hdelta Hfuel Hvalid Hrange.
  - exists (Date y m d). done.
  - unfold months_before in Hrange. rewrite Nat.iter_succ_r in Hrange.
    cbn [year month fst snd] in Hrange.
    assert (Hm : 1 ≤ m ≤ 12) by (destruct Hvalid as (_ & Hm & _); done).
    pose proof (month_before_bounds y m Hm) as [Hm' Hy'].
    destruct (month_before y m) as [y1 m1] eqn:Hprev. cbn [fst snd] in *.
    pose proof (months_before_shrinks n y1 m1 Hm') as [Hshrink _].
    unfold months_before in Hshrink.
    destruct (while_backward_valid fuel delta y m d) as (d1 & Hrun & Hvalid1);
      [done | done | | |].
    { intros [-> ->]. unfold month_before in Hprev. simpl in Hprev. simplify_eq. lia. }
    { destruct Hvalid as (_ & _ & Hd). pose proof (days_in_month_bounds y m).
      simpl in Hd. lia. }
    rewrite Hprev in Hrun, Hvalid1. cbn [fst snd] in Hrun, Hvalid1.
    destruct (IH (Date y1 m1 d1) Hdelta Hfuel Hvalid1 Hrange) as (d' & Hrest & Hvalid' & Hym).
    exists d'. cbn [for_range month]. rewrite Hrun. split; [done |]. split; [done |].
    rewrite Hym. unfold months_before. rewrite Nat.iter_succ_r. cbn [year month fst snd].
    by rewrite Hprev.
Qed.

(** For every [delta], and not only for one month either way: [get_month]
    returns a valid date in the month that lies [delta] calendar months after
    (before, when [delta] is negative) the month of [today], as long as that
    month is within the years [date] knows. *)
Theorem get_month_steps_months fuel today delta :
  valid_date today → (3 ≤ fuel)%nat →
  (0 ≤ delta →
   (months_after (Z.abs_nat delta) (year today) (month today)).1 ≤ MAXYEAR →
   ∃ d, get_month fuel today delta = Done d ∧ valid_date d ∧
        (year d, month d) = months_after (Z.abs_nat delta) (year today) (month today)) ∧
  (delta < 0 →
   MINYEAR ≤ (months_before (Z.abs_nat delta) (year today) (month today)).1 →
   ∃ d, get_month fuel today delta = Done d ∧ valid_date d ∧
        (year d, month d) = months_before (Z.abs_nat delta) (year today) (month today)).
Proof.
  intros Hvalid Hfuel. split; intros Hdelta Hrange.
  - by apply for_range_forward.
  - by apply for_range_backward.
Qed.

Lemma get_month_steps_months_witness :
  (∃ d, get_month 3 (Date 2024 11 15) 3 = Done d ∧ valid_date d ∧
        (year d, month d) = (2025, 2)) ∧
  (∃ d, get_month 3 (Date 2024 1 15) (-2) = Done d ∧ valid_date d ∧
        (year d, month d) = (2023, 11)).
Proof.
  assert (Hnov : valid_date (Date 2024 11 15)).
  { unfold valid_date, MINYEAR, MAXYEAR. simpl. vm_compute days_in_month. lia. }
  assert (Hjan : valid_date (Date 2024 1 15)).
  { unfold valid_date, MINYEAR, MAXYEAR. simpl. vm_compute days_in_month. lia. }
  split.
  - destruct (get_month_steps_months 3 (Date 2024 11 15) 3 Hnov (le_n 3)) as [Hahead _].
    apply Hahead; [lia |]. vm_compute. discriminate.
  - destruct (get_month_steps_months 3 (Date 2024 1 15) (-2) Hjan (le_n 3)) as [_ Hback].
    apply Hback; [lia |]. vm_compute. discriminate.
Defined.

(** The table named today for next month ([delta = 1]) is the table named
    current ([delta = 0]) on every day of next month. *)
Theorem next_month_table_becomes_current fuel prefix today later :
  valid_date today → (3 ≤ fuel)%nat →
  ¬ (year today = MAXYEAR ∧ month today = 12) →
  (year later, month later) = month_after (year today) (month today) →
  make_rotating_tablename fuel today prefix 1 = make_rotating_tablename fuel later prefix 0.
Proof.
  intros Hvalid Hfuel Hlast Hlater.
  destruct (get_month_next fuel today Hvalid Hfuel Hlast) as [d' Hrun].
  unfold make_rotating_tablename. rewrite Hrun, get_month_today.
  cbn [year month]. by rewrite <- Hlater.
Qed.

Lemma next_month_table_becomes_current_witness :
  make_rotating_tablename 3 (Date 2024 12 31) "message" 1
    = make_rotating_tablename 3 (Date 2025 1 17) "message" 0.
Proof.
  assert (Hvalid : valid_date (Date 2024 12 31)).
  { unfold valid_date, MINYEAR, MAXYEAR. simpl. vm_compute days_in_month. lia. }
  apply (next_month_table_becomes_current 3 "message" _ _ Hvalid (le_n 3)).
  - simpl. unfold MAXYEAR. lia.
  - reflexivity.
Defined.

End CalendarMore.

Module RegistryFacts.
Import Message MessageFacts MessageMore.

Lemma save_channels_run u (s : gset string) w :
  served w → u ≠ "" →
  let item : Item := {[ "uaid" := VStr u; "chidmessageid" := VStr " "; "chids" := VSet s ]} in
  let free := bool_decide (Forall (λ k : string, default ∅ (table w !! [u; " "]) !! k = None)
                             (map_to_list item).*1) in
  save_channels u (VSet s) w =
    (if free then Return tt else Raise ConditionalCheckFailedException,
     (if free then set_table (<[ [u; " "] := storable item ]>) else id)
       (after_request (PutItem (storable item)
                         (attribute_not_exists <$> (map_to_list item).*1) ∅) false w)).
Proof.
  intros Hserved Hu item free.
  unfold save_channels, track_provisioned, try_except, table_put_item.
  fold item. fold (storable item).
  rewrite (conn_put_item_served _ _ _ _ [u; " "] free);
    [| done | | apply eval_expects].
  - by destruct free.
  - apply item_key_message. split; apply storable_lookup.
    + unfold item. by simplify_map_eq.
    + simpl. by rewrite (proj2 (String.eqb_neq u "")).
    + unfold item. by simplify_map_eq.
    + done.
Qed.

Lemma storable_channels u (s : gset string) :
  py_or (item_get (storable {[ "uaid" := VStr u; "chidmessageid" := VStr " ";
                               "chids" := VSet s ]}) "chids") (VSet ∅) = VSet s.
Proof.
  unfold item_get, storable.
  destruct (decide (s = ∅)) as [-> | Hs].
  - rewrite (proj2 (map_lookup_filter_None _ _ _)); [done |].
    right. intros v Hv. simplify_map_eq. done.
  - rewrite (storable_lookup _ "chids" (VSet s)).
    + unfold py_or. simpl. by rewrite bool_decide_eq_false_2.
    + by simplify_map_eq.
    + simpl. by rewrite bool_decide_eq_false_2.
Qed.

(** [save_channels] creates the registry of a user who has none, and
    [all_channels] then returns the channels saved; on a user who has one it
    raises [ConditionalCheckFailedException] and changes nothing. *)
Theorem save_channels_only_creates u (s : gset string) w :
  never_throttled w → u ≠ "" → keyed message_schema (table w) →
  match table w !! [u; " "] with
  | None =>
      ∃ w1 w2, save_channels u (VSet s) w = (Return tt, w1) ∧
               all_channels u w1 = (Return (true, VSet s), w2)
  | Some _ =>
      (save_channels u (VSet s) w).1 = Raise ConditionalCheckFailedException ∧
      table (save_channels u (VSet s) w).2 = table w
  end.
Proof.
  intros Hcalm Hu Hkeyed.
  assert (Hserved : served w) by by apply StorageFacts.never_throttled_served.
  rewrite (save_channels_run u s w Hserved Hu).
  destruct (table w !! [u; " "]) as [it|] eqn:Hit.
  - apply Hkeyed, item_key_message in Hit as [Huaid _].
    rewrite bool_decide_eq_false_2; [done |].
    intros Hall. apply Forall_forall with (x := "uaid") in Hall.
    + simpl in Hall. by rewrite Huaid in Hall.
    + apply list_elem_of_fmap. exists ("uaid", VStr u). split; [done |].
      apply elem_of_map_to_list. by simplify_map_eq.
  - rewrite bool_decide_eq_true_2 by (apply Forall_forall; intros; apply lookup_empty).
    set (w1 := set_table _ _).
    assert (Hserved1 : served w1).
    { apply StorageFacts.never_throttled_served.
      by apply (StorageFacts.never_throttled_tail w). }
    destruct (all_channels_run u w1 Hserved1) as (w2 & Hall & _).
    exists w1, w2. split; [done |]. rewrite Hall.
    cbn [table w1 set_table after_request]. rewrite lookup_insert_eq.
    by rewrite storable_channels.
Qed.

Lemma save_channels_only_creates_witness :
  ∃ w1 w2,
    save_channels "u1" (VSet {[ "c1" ]}) empty_world = (Return tt, w1) ∧
    all_channels "u1" w1 = (Return (true, VSet {[ "c1" ]}), w2).
Proof.
  assert (Hu : "u1" ≠ "") by discriminate.
  assert (Hkeyed : keyed message_schema (table empty_world)).
  { intros k it Hk. unfold empty_world in Hk. cbn [table] in Hk.
    by rewrite lookup_empty in Hk. }
  exact (save_channels_only_creates "u1" {[ "c1" ]} empty_world
           (never_throttled_quiet empty_world eq_refl) Hu Hkeyed).
Defined.

End RegistryFacts.

(** ** The pre-flight check *)

Module PreflightFacts.
Import Storage StorageFacts Router RouterFacts QueryFacts RouterMore.
Local Open Scope Z_scope.

Lemma check_storage_run u c v w :
  never_throttled w → table w !! [u; c] = None → String.ltb " " c = true →
  truthy (VNum v) = true →
  ∃ w', check_storage u c v w = (Return true, w') ∧ table w' = table w ∧
        metrics w' = metrics w.
Proof.
  intros Hcalm Hfree Hc Hv.
  assert (Hserved : served w) by by apply never_throttled_served.
  destruct (save_notification_run u c v w Hserved) as (w1 & Hsave & Htable1 & Hmet1 & Hf1).
  assert (Hnone : stored_version (table w) u c = None).
  { unfold stored_version. by rewrite Hfree. }
  rewrite Hnone in Hsave, Htable1. simpl in Hsave, Htable1.
  assert (Hcalm1 : never_throttled w1) by by apply (never_throttled_tail w).
  assert (Hserved1 : served w1) by by apply never_throttled_served.
  unfold check_storage, bind. rewrite Hsave.
  unfold fetch_notifications, track_provisioned, try_except.
  rewrite table_query_2_served by done.
  set (notifs := query_result _ _ _ _ _).
  assert (Hin : notification u c v ∈ notifs).
  { apply elem_of_query_result. exists c, (notification u c v).
    rewrite Htable1, lookup_insert_eq. done. }
  rewrite bool_decide_eq_true_2
    by (destruct notifs; [by apply elem_of_nil in Hin | simpl; lia]).
  set (w2 := after_request _ _ w1).
  assert (Hserved2 : served w2).
  { apply never_throttled_served. by apply (never_throttled_tail w1). }
  destruct (delete_notification_served u c (VNum v) w2 Hserved2)
    as (w3 & Hdel & Htable3 & _ & Hmet3).
  rewrite Hdel. eexists. split; [reflexivity |].
  rewrite Hv in Htable3. cbn [table after_request w2] in Htable3.
  rewrite Htable1 in Htable3.
  rewrite bool_decide_eq_true_2 in Htable3.
  - split; [by rewrite Htable3, delete_insert_eq, delete_id | by rewrite Hmet3].
  - unfold stored_version. by rewrite lookup_insert_eq.
Qed.

Lemma check_router_run u n ca w :
  never_throttled w → table w !! [u] = None →
  ∃ w', check_router u n ca w = (Return true, w') ∧
        table w' = <[ [u] := {[ "uaid" := VStr u ]} ]> (table w) ∧
        metrics w' = metrics w.
Proof.
  intros Hcalm Hfree.
  set (d := ({[ "uaid" := VStr u; "node_id" := VStr n; "connected_at" := VNum ca;
                "router_type" := VStr "simplepush" ]} : Item)).
  set (data := fresh (dom (heap w))).
  set (w0 := set_heap (<[data := d]>) w).
  assert (Hserved0 : served w0) by by apply never_throttled_served.
  destruct (register_user_run w0 data d u (VStr "simplepush") ca)
    as (ok & w1 & Hreg & Hok & Htable1 & Hheap1 & Hf1 & Hmet1);
    [apply lookup_insert_eq | done | done | done | done |].
  assert (ok = true) as ->.
  { apply Hok. cbn [table w0 set_heap]. rewrite Hfree. by split; left. }
  cbn [table w0 set_heap] in Htable1. rewrite Hfree in Htable1. cbn [default] in Htable1.
  set (rec := delete "uaid" d ∪ {[ "uaid" := VStr u ]}) in Htable1.
  assert (Hcalm1 : never_throttled w1) by by apply (never_throttled_tail w0).
  assert (Hserved1 : served w1) by by apply never_throttled_served.
  unfold check_router, bind. fold d. change (alloc d w) with (Return data, w0). cbv beta iota.
  rewrite Hreg, (get_uaid_run u w1 Hserved1), Htable1, lookup_insert_eq.
  set (item := fresh (dom (heap w1))).
  set (w2 := set_heap _ _).
  assert (Hitem : heap w2 !! item = Some rec) by apply lookup_insert_eq.
  rewrite (deref_run _ _ _ Hitem).
  assert (Hnode : item_get rec "node_id" = VStr n) by done.
  assert (Hconn : item_get rec "connected_at" = VNum ca) by done.
  rewrite Hnode, bool_decide_eq_true_2 by done.
  assert (Hserved2 : served w2).
  { apply never_throttled_served. by apply (never_throttled_tail w1). }
  destruct (clear_node_run w2 item rec u Hitem) as (w3 & Hclear & Htable3 & _ & Hmet3);
    [reflexivity | done |].
  assert (Hst : default ∅ (table w2 !! [u]) = rec).
  { cbn [table w2 set_heap after_request]. by rewrite Htable1, lookup_insert_eq. }
  rewrite Hst, Hnode, Hconn in Hclear, Htable3.
  rewrite !bool_decide_eq_true_2 in Hclear, Htable3 by reflexivity.
  cbn [andb table w2 set_heap after_request] in Htable3, Hclear.
  rewrite Htable1 in Htable3. rewrite Hclear. eexists. split; [reflexivity |].
  split; [by rewrite Htable3, insert_insert_eq |].
  by rewrite Hmet3.
Qed.

(** On tables that hold nothing for the two fresh ids and while DynamoDB
    throttles nothing, [preflight_check] passes; the storage table is then as
    it was, the router table keeps a record of the test user that holds its
    [uaid] only, and no counter has moved. *)
Theorem preflight_check_passes uaid chid storage router :
  never_throttled storage → never_throttled router →
  table storage !! [uaid; chid] = None → table router !! [uaid] = None →
  String.ltb " " chid = true →
  ∃ storage' router',
    preflight_check uaid chid storage router = (Passed, storage', router') ∧
    table storage' = table storage ∧
    table router' = <[ [uaid] := {[ "uaid" := VStr uaid ]} ]> (table router) ∧
    metrics storage' = metrics storage ∧ metrics router' = metrics router.
Proof.
  intros Hs Hr Hfree_s Hfree_r Hchid.
  destruct (check_storage_run uaid chid 12 storage Hs Hfree_s Hchid eq_refl)
    as (s' & Hrun_s & Htable_s & Hmet_s).
  destruct (check_router_run uaid "mynode:2020" 0 router Hr Hfree_r)
    as (r' & Hrun_r & Htable_r & Hmet_r).
  exists s', r'. unfold preflight_check. by rewrite Hrun_s, Hrun_r.
Qed.

Lemma preflight_check_passes_witness :
  ∃ storage' router',
    preflight_check "u9" "c9" empty_world empty_world = (Passed, storage', router') ∧
    table storage' = table empty_world ∧
    table router' = <[ ["u9"] := {[ "uaid" := VStr "u9" ]} ]> (table empty_world) ∧
    metrics storage' = metrics empty_world ∧ metrics router' = metrics empty_world.
Proof.
  exact (preflight_check_passes "u9" "c9" empty_world empty_world
           (never_throttled_quiet empty_world eq_refl)
           (never_throttled_quiet empty_world eq_refl) eq_refl eq_refl eq_refl).
Defined.

End PreflightFacts.
